(** * Conditional display, post-parent aperture

    A shallow embedding of
    [packages/metaboxes/conditional-display/aperture/post-parent.js]:
    the two adapters that derive [{post_ancestors, post_parent_id,
    post_level}] from the classic editor's [select#parent_id] and from the
    block editor's entity records.

    Modelling conventions.
    - A JavaScript number is [NaN] or an exact integer ([Int z]); the
      embedding is exact wherever the numbers involved are safe integers
      (of absolute value at most 2^53), and it identifies [-0] with [0].
      Beyond that range the code computes in doubles, which round, and
      prints in exponent notation; every statement below whose conclusion
      names an exact value parsed or computed by the code therefore bounds
      the numbers it speaks about.
    - A JavaScript string is a [string] whose characters stand for code
      units below 256.
    - [undefined]/[null] results are [None]; a property read on [undefined]
      is the [TypeError] outcome.
    - The recursion of [getAncestorsFromPostsList] has no bound in the
      source, so it is embedded with a fuel argument counting the nested
      calls that remain allowed; [None] means that the fuel ran out. *)

From Stdlib Require Import ZArith List String Ascii Bool Lia.
From Stdlib Require Import Relations.Relation_Operators.
From Stdlib Require Import Relations.Operators_Properties Sorting.Permutation.
From Stdlib Require Import Decimal DecimalString DecimalN.
Import ListNotations.

Local Open Scope string_scope.
Local Open Scope list_scope.
Local Open Scope Z_scope.

(* ================================================================== *)
(** ** The fragment of JavaScript the file relies on *)

Module JS.

(** Numbers. *)
Inductive number : Type :=
| NaN
| Int (z : Z).

(** Values that reach [parseInt] in this file. *)
Inductive jsval : Type :=
| VUndefined
| VNumber (n : number)
| VString (s : string).

(** [isNaN( n )] *)
Definition isNaN (n : number) : bool :=
  match n with NaN => true | Int _ => false end.

(** [a > b]; any comparison with [NaN] is false. *)
Definition gt (a b : number) : bool :=
  match a, b with
  | Int x, Int y => x >? y
  | _, _ => false
  end.

(** [a === b] on numbers; [NaN] is not equal to itself. *)
Definition strict_eq (a b : number) : bool :=
  match a, b with
  | Int x, Int y => x =? y
  | _, _ => false
  end.

(** [a + b] on numbers; exact as long as the operands and the sum stay
    within 2^53 in absolute value. *)
Definition add (a b : number) : number :=
  match a, b with
  | Int x, Int y => Int (x + y)
  | _, _ => NaN
  end.

(** [a - b] on numbers; exact as long as the operands and the difference
    stay within 2^53 in absolute value. *)
Definition sub (a b : number) : number :=
  match a, b with
  | Int x, Int y => Int (x - y)
  | _, _ => NaN
  end.

(** Truthiness of a number: neither [0] nor [NaN]. *)
Definition truthy (n : number) : bool :=
  match n with
  | NaN => false
  | Int z => negb (z =? 0)
  end.

(** [StrWhiteSpaceChar] restricted to code units below 256: TAB, LF, VT,
    FF, CR, SP and NBSP. *)
Definition isWhiteSpace (c : ascii) : bool :=
  let n := nat_of_ascii c in
  (Nat.leb 9 n && Nat.leb n 13) || Nat.eqb n 32 || Nat.eqb n 160.

(** [\d], and a radix-10 digit of [parseInt]. *)
Definition isDigit (c : ascii) : bool :=
  let n := nat_of_ascii c in
  Nat.leb 48 n && Nat.leb n 57.

Definition digitValue (c : ascii) : Z :=
  Z.of_nat (nat_of_ascii c) - 48.

Fixpoint trimStart (s : string) : string :=
  match s with
  | String c r => if isWhiteSpace c then trimStart r else s
  | EmptyString => s
  end.

(** The longest prefix made of digits. *)
Fixpoint digitsPrefix (s : string) : string :=
  match s with
  | String c r => if isDigit c then String c (digitsPrefix r) else EmptyString
  | EmptyString => EmptyString
  end.

(** The integer a digit string denotes in radix 10, most significant digit
    first, continuing from [acc]. *)
Fixpoint digitsValue (s : string) (acc : Z) : Z :=
  match s with
  | String c r => digitsValue r (10 * acc + digitValue c)
  | EmptyString => acc
  end.

(** [ToString] on the values above; an integer prints in decimal, which is
    what the code does below 10^21. *)
Definition toString (v : jsval) : string :=
  match v with
  | VUndefined => "undefined"
  | VNumber NaN => "NaN"
  | VNumber (Int z) => NilZero.string_of_int (Z.to_int z)
  | VString s => s
  end.

(** [parseInt( s, 10 )] on a string: leading white space is dropped, one
    sign is read, then the longest run of digits; no digit gives [NaN].
    The digits are read exactly, as the code does up to 2^53. *)
Definition parseIntString (s : string) : number :=
  let trimmed := trimStart s in
  let '(sign, rest) :=
    match trimmed with
    | String "-" r => (-1, r)
    | String "+" r => (1, r)
    | _ => (1, trimmed)
    end in
  match digitsPrefix rest with
  | EmptyString => NaN
  | digits => Int (sign * digitsValue digits 0)
  end.

(** [parseInt( v, 10 )] *)
Definition parseInt (v : jsval) : number :=
  parseIntString (toString v).

(** [s.match( /^level-(\d+)/ )], reduced to its first capture group
    [matches[ 1 ]]; [None] is the [null] of a failed match. *)
Definition matchLevel (s : string) : option string :=
  match s with
  | String "l" (String "e" (String "v" (String "e" (String "l" (String "-" r))))) =>
      match digitsPrefix r with
      | EmptyString => None
      | digits => Some digits
      end
  | _ => None
  end.

End JS.

Import JS.

(* ================================================================== *)
(** ** The value both adapters emit *)

Record PositionState : Type := {
  post_ancestors : list number;
  post_parent_id : number;
  post_level : number
}.

(** [INITIAL_STATE] *)
Definition INITIAL_STATE : PositionState :=
  {| post_ancestors := [];
     post_parent_id := Int 0;
     post_level := Int 1 |}.

(** What a call can do: return, or throw the [TypeError] of a property
    read on [undefined]. *)
Inductive outcome (A : Type) : Type :=
| Returns (a : A)
| ThrowsTypeError.

Arguments Returns {A} a.
Arguments ThrowsTypeError {A}.

(* ================================================================== *)
(** ** Classic editor: the [select#parent_id] adapter *)

Module Dom.

(** A child of the [select]: an [option] element with its [value] and
    [className] strings, or a text node, which has neither property. *)
Inductive Node : Type :=
| OptionElement (value className : string)
| TextNode (data : string).

(** [n.value] *)
Definition value (n : Node) : jsval :=
  match n with
  | OptionElement v _ => VString v
  | TextNode _ => VUndefined
  end.

(** [n.className]; [None] is [undefined]. *)
Definition className (n : Node) : option string :=
  match n with
  | OptionElement _ c => Some c
  | TextNode _ => None
  end.

Definition isOptionElement (n : Node) : bool :=
  match n with
  | OptionElement _ _ => true
  | TextNode _ => false
  end.

(** A node seen from the code: the node itself and the nodes reached by
    following [previousSibling], nearest first.  An empty list means that
    [previousSibling] is [null]. *)
Record Linked : Type := {
  self : Node;
  previousSiblings : list Node
}.

(** The [select] element: its children in document order and its
    [selectedIndex] ([-1] when nothing is selected). *)
Record Select : Type := {
  childNodes : list Node;
  selectedIndex : Z
}.

(** [options[ i ]] for [i >= 0]: the [i]-th [option] element among the
    children, linked to the children that precede it ([seen], nearest
    first). *)
Fixpoint optionAt (children seen : list Node) (i : nat) : option Linked :=
  match children with
  | [] => None
  | n :: rest =>
      if isOptionElement n then
        match i with
        | O => Some {| self := n; previousSiblings := seen |}
        | S j => optionAt rest (n :: seen) j
        end
      else optionAt rest (n :: seen) i
  end.

(** [node.options[ node.selectedIndex ]]; [None] is [undefined]. *)
Definition selectedOption (node : Select) : option Linked :=
  if selectedIndex node <? 0 then None
  else optionAt (childNodes node) [] (Z.to_nat (selectedIndex node)).

End Dom.

Import Dom.

(** [getParentIdFromOption( option )] *)
Definition getParentIdFromOption (option : Node) : number :=
  let value := parseInt (value option) in
  if negb (isNaN value) then value else Int 0.

(** [getLevelFromOption( option )] *)
Definition getLevelFromOption (option : Node) : number :=
  match className option with
  | Some (String c r) =>
      match matchLevel (String c r) with
      | Some digits => add (parseInt (VString digits)) (Int 1)
      | None => Int 0
      end
  | _ => Int 0
  end.

(** The [while] loop of [getAncestorsFromOption].  [previousOption] is the
    list whose head is the node the source calls [previousOption] and whose
    tail is what [previousSibling] leads to; the empty list is [null]. *)
Fixpoint ancestorsLoop (previousOption : list Node) (level : number)
    (ancestors : list number) : list number :=
  match previousOption with
  | [] => ancestors
  | current :: previousSibling =>
      if gt level (Int 0) then
        if negb (strict_eq (getLevelFromOption current) level) then
          ancestorsLoop previousSibling level ancestors
        else
          let id := parseInt (value current) in
          let ancestors := if gt id (Int 0) then id :: ancestors else ancestors in
          ancestorsLoop previousSibling (sub level (Int 1)) ancestors
      else ancestors
  end.

(** [getAncestorsFromOption( option )] *)
Definition getAncestorsFromOption (option : Linked) : list number :=
  ancestorsLoop (self option :: previousSiblings option)
    (getLevelFromOption (self option)) [].

(** [getParentIdAncestorsAndLevelFromSelect( node )].  When the selected
    index designates no option, [option] is [undefined] and the first
    property read, [option.className] inside [getLevelFromOption], throws. *)
Definition getParentIdAncestorsAndLevelFromSelect (node : Select)
    : outcome PositionState :=
  match selectedOption node with
  | None => ThrowsTypeError
  | Some option =>
      let ancestors := getAncestorsFromOption option in
      let parentId := getParentIdFromOption (self option) in
      let level := add (getLevelFromOption (self option)) (Int 1) in
      Returns {| post_ancestors := ancestors;
                 post_parent_id := parentId;
                 post_level := level |}
  end.

(** The first value of the classic filter's stream: [INITIAL_STATE] when
    [document.querySelector( 'select#parent_id' )] finds no node ([None]),
    the adapter's result on the node otherwise. *)
Definition classicInitialValue (node : option Select)
    : outcome PositionState :=
  match node with
  | None => Returns INITIAL_STATE
  | Some node => getParentIdAncestorsAndLevelFromSelect node
  end.

(* ================================================================== *)
(** ** Block editor: the entity-record adapter *)

Module Gutenberg.

(** An entity record, as far as the code reads it. *)
Record Post : Type := {
  id : Z;
  parent : Z
}.

(** A post type object; [None] for a missing [hierarchical] property. *)
Record PostType : Type := {
  hierarchical : option bool
}.

(** [find( posts, [ 'id', parentId ] )]: the first record whose [id] is
    strictly equal to [parentId]. *)
Definition findById (posts : list Post) (parentId : number) : option Post :=
  find (fun post => strict_eq (Int (id post)) parentId) posts.

(** [getAncestorsFromPostsList( parentId, posts, ancestors )], with [fuel]
    bounding the depth of the recursion. *)
Fixpoint getAncestorsFromPostsList (fuel : nat) (parentId : number)
    (posts : list Post) (ancestors : list number) : option (list number) :=
  match fuel with
  | O => None
  | S fuel =>
      match findById posts parentId with
      | None => Some ancestors
      | Some parent_ =>
          let ancestors := Int (id parent_) :: ancestors in
          if truthy (Int (parent parent_)) then
            getAncestorsFromPostsList fuel (Int (parent parent_)) posts ancestors
          else Some ancestors
      end
  end.

(** [records || []]: a [null] answer of the store reads as no record. *)
Definition orEmpty (records : option (list Post)) : list Post :=
  match records with
  | Some records => records
  | None => []
  end.

Section Callback.

(** The selectors of the [core] store, supplied by the editor. *)
Variable getPostType : jsval -> option PostType.
Variable getEntityRecords : jsval -> jsval -> option (list Post).

(** [get( postType, [ 'hierarchical' ], false )] *)
Definition isHierarchical (postTypeSlug : jsval) : bool :=
  match getPostType postTypeSlug with
  | Some postType =>
      match hierarchical postType with
      | Some b => b
      | None => false
      end
  | None => false
  end.

(** The [map] callback of the Gutenberg filter, applied to
    [[ postId, postTypeSlug, parentId ]].  [getEntityRecords] receives the
    slug and the excluded post id; the other query fields are constants. *)
Definition gutenbergMap (fuel : nat) (postId postTypeSlug parentId : jsval)
    : option PositionState :=
  let parentId := parseInt parentId in
  if isNaN parentId then Some INITIAL_STATE
  else if negb (isHierarchical postTypeSlug) then Some INITIAL_STATE
  else
    let items := orEmpty (getEntityRecords postTypeSlug postId) in
    match getAncestorsFromPostsList fuel parentId items [] with
    | None => None
    | Some ancestors =>
        let level := add (Int (Z.of_nat (List.length ancestors))) (Int 1) in
        Some {| post_ancestors := ancestors;
                post_parent_id := parentId;
                post_level := level |}
    end.

End Callback.

(** One parent link that the recursion follows: the record found for [x]
    has the non-zero parent [y]. *)
Definition parentLink (posts : list Post) (x y : Z) : Prop :=
  exists post,
    findById posts (Int x) = Some post /\ parent post = y /\ y <> 0.

(** No id reaches itself through parent links. *)
Definition Acyclic (posts : list Post) : Prop :=
  forall x, ~ clos_trans Z (parentLink posts) x x.

(** A call that returns without a nested call. *)
Definition stopsAt (posts : list Post) (parentId : number) : Prop :=
  findById posts parentId = None \/
  exists post, findById posts parentId = Some post /\ parent post = 0.

End Gutenberg.

Import Gutenberg.

(* ================================================================== *)
(** ** Vocabulary of the specification *)

(** The decimal numeral of [d], as in the class [level-d]. *)
Definition decimal (d : N) : string :=
  NilEmpty.string_of_uint (N.to_uint d).

(** The class [level-d], possibly followed by further text [rest]. *)
Definition levelClass (d : N) (rest : string) : string :=
  ("level-" ++ decimal d ++ rest)%string.

(** [rest] does not continue a numeral. *)
Definition noLeadingDigit (rest : string) : bool :=
  match rest with
  | String c _ => negb (isDigit c)
  | EmptyString => true
  end.

(** The option carries no indentation class: a text node, an empty class,
    or a class the pattern does not match. *)
Definition noLevelClass (n : Node) : Prop :=
  match className n with
  | Some c => matchLevel c = None
  | None => True
  end.

(** The steps of the backward walk at which the level test succeeds: the
    nodes the loop takes for ancestors, in the order it meets them. *)
Fixpoint matchedSteps (previousOption : list Node) (level : number)
    : list Node :=
  match previousOption with
  | [] => []
  | current :: previousSibling =>
      if gt level (Int 0) then
        if negb (strict_eq (getLevelFromOption current) level) then
          matchedSteps previousSibling level
        else current :: matchedSteps previousSibling (sub level (Int 1))
      else []
  end.

(** A matched step has a valid id when its value parses to a positive
    number. *)
Definition validId (n : Node) : bool :=
  gt (parseInt (value n)) (Int 0).

(* ================================================================== *)
(** ** The scenarios of the specification *)

(** Records [{id:5,parent:0}], [{id:9,parent:5}], [{id:20,parent:9}]. *)
Definition scenarioRecords : list Post :=
  [ {| id := 5; parent := 0 |};
    {| id := 9; parent := 5 |};
    {| id := 20; parent := 9 |} ].

(** A store in which every post type is hierarchical. *)
Definition hierarchicalType (_ : jsval) : option PostType :=
  Some {| hierarchical := Some true |}.

(** A store in which no post type is hierarchical. *)
Definition flatType (_ : jsval) : option PostType :=
  Some {| hierarchical := Some false |}.

(** A store that answers every query with [records]. *)
Definition recordsStore (records : list Post) (_ _ : jsval)
    : option (list Post) :=
  Some records.

(** Options with ids 1, 2, 3 at depths 0, 1, 1 ([level-0], [level-1],
    [level-1]), the third one selected. *)
Definition scenarioSelect : Select :=
  {| childNodes :=
       [ OptionElement "1" "level-0";
         OptionElement "2" "level-1";
         OptionElement "3" "level-1" ];
     selectedIndex := 2 |}.

(** The same three options when depth 0 is read as "no class" and depth 1
    as the first indentation class. *)
Definition scenarioSelectUnclassed : Select :=
  {| childNodes :=
       [ OptionElement "1" "";
         OptionElement "2" "level-0";
         OptionElement "3" "level-0" ];
     selectedIndex := 2 |}.

(** The parent dropdown as WordPress prints it: a first option without
    class or id, then the pages, separated by text nodes. *)
Definition dropdownSelect : Select :=
  {| childNodes :=
       [ OptionElement "" "";
         TextNode " ";
         OptionElement "1" "level-0";
         TextNode " ";
         OptionElement "2" "level-1";
         TextNode " ";
         OptionElement "3" "level-1" ];
     selectedIndex := 3 |}.

(** A single root-level option, selected. *)
Definition rootSelect : Select :=
  {| childNodes := [ OptionElement "3" "level-0" ];
     selectedIndex := 0 |}.

(** A selected option whose value is a negative numeral. *)
Definition negativeSelect : Select :=
  {| childNodes := [ OptionElement "-5" "level-0" ];
     selectedIndex := 0 |}.

(** A [select] without any option; its [selectedIndex] is [-1]. *)
Definition emptySelect : Select :=
  {| childNodes := [];
     selectedIndex := -1 |}.

(** A record that names itself as its parent. *)
Definition selfParent : list Post :=
  [ {| id := 1; parent := 1 |} ].

(* ================================================================== *)
(** ** Vocabulary for the parent chain of the records *)

(** [a] is the parent that the records give to [b]: the record found for
    [b] names the non-zero parent [a]. *)
Definition isParentOf (posts : list Post) (a b : number) : Prop :=
  exists post,
    findById posts b = Some post /\ parent post <> 0 /\ a = Int (parent post).

(** Every entry is the parent of the entry that follows it. *)
Fixpoint ParentChain (posts : list Post) (chain : list number) : Prop :=
  match chain with
  | a :: rest =>
      match rest with
      | b :: _ => isParentOf posts a b /\ ParentChain posts rest
      | [] => True
      end
  | [] => True
  end.

(** [top] has a record, and that record has no parent or names a parent
    for which there is no record. *)
Definition chainTop (posts : list Post) (top : number) : Prop :=
  exists post,
    findById posts top = Some post /\
    (parent post = 0 \/ findById posts (Int (parent post)) = None).

(** A parent cycle can be reached from [p] by following parent links. *)
Definition reachesCycle (posts : list Post) (p : Z) : Prop :=
  exists x,
    clos_refl_trans Z (parentLink posts) p x /\
    clos_trans Z (parentLink posts) x x.

(** What the accumulator and the id to look up have in common during the
    recursion: the accumulator is a parent chain, and the id is the parent
    that the records give to its first entry. *)
Definition chainInvariant (posts : list Post) (ancestors : list number)
    (parentId : number) : Prop :=
  ParentChain posts ancestors /\
  match ancestors with
  | child :: _ => isParentOf posts parentId child
  | [] => True
  end.

(** The ids already recorded are pairwise distinct record ids, each of them
    below the id to look up in the hierarchy. *)
Definition visitedInvariant (posts : list Post) (ancestors : list number)
    (parentId : number) : Prop :=
  NoDup ancestors /\
  incl ancestors (map (fun post => Int (id post)) posts) /\
  forall a, In a ancestors ->
    exists x y, a = Int x /\ parentId = Int y /\
                clos_trans Z (parentLink posts) x y.

(* ================================================================== *)
(** ** A page hierarchy and the two forms in which the editors show it *)

(** A forest of pages, each page with its children and its following
    siblings.  Page ids are positive. *)
Inductive Pages : Type :=
| NoPage
| Page (pageId : positive) (children siblings : Pages).

Fixpoint countPages (pages : Pages) : nat :=
  match pages with
  | NoPage => O
  | Page _ children siblings => S (countPages children + countPages siblings)
  end.

(** The ids in display order: a page, its descendants, then its siblings. *)
Fixpoint pageIds (pages : Pages) : list positive :=
  match pages with
  | NoPage => []
  | Page i children siblings => i :: (pageIds children ++ pageIds siblings)
  end.

(** The options of the parent dropdown for a forest whose roots sit at
    [depth]: one option per page in display order, its value the page id
    and its class [level-depth]. *)
Fixpoint renderOptions (depth : N) (pages : Pages) : list Node :=
  match pages with
  | NoPage => []
  | Page i children siblings =>
      OptionElement (decimal (N.pos i)) (levelClass depth "")
        :: (renderOptions (depth + 1) children ++ renderOptions depth siblings)
  end.

(** The entity records of a forest whose roots have the parent
    [parentId]. *)
Fixpoint recordsOf (parentId : Z) (pages : Pages) : list Post :=
  match pages with
  | NoPage => []
  | Page i children siblings =>
      {| id := Z.pos i; parent := parentId |}
        :: (recordsOf (Z.pos i) children ++ recordsOf parentId siblings)
  end.

(** The ids on the way from a root down to the [k]-th page in display
    order, that page included. *)
Fixpoint pathTo (pages : Pages) (k : nat) : option (list positive) :=
  match pages with
  | NoPage => None
  | Page i children siblings =>
      match k with
      | O => Some [i]
      | S k' =>
          if Nat.ltb k' (countPages children) then
            match pathTo children k' with
            | Some path => Some (i :: path)
            | None => None
            end
          else pathTo siblings (k' - countPages children)
      end
  end.

(** A page id as a number. *)
Definition pageNumber (i : positive) : number := Int (Z.pos i).

(** The state both adapters should derive for a post whose parent is the
    last page of [path]. *)
Definition stateOfPath (path : list positive) : PositionState :=
  {| post_ancestors := map pageNumber path;
     post_parent_id := pageNumber (last path 1%positive);
     post_level := Int (Z.of_nat (List.length path) + 1) |}.

(** The way up from a page: the record of each id names the next id as its
    parent, and the record of the last one names [top]. *)
Fixpoint UpPath (records : list Post) (top : Z) (up : list positive) : Prop :=
  match up with
  | [] => True
  | x :: rest =>
      In {| id := Z.pos x;
            parent := match rest with
                      | [] => top
                      | y :: _ => Z.pos y
                      end |} records /\
      UpPath records top rest
  end.

(** Pages 1 and 4 at the top, 2 and 3 below 1. *)
Definition scenarioPages : Pages :=
  Page 1 (Page 2 NoPage (Page 3 NoPage NoPage)) (Page 4 NoPage NoPage).

(* ================================================================== *)
(** ** Sanity checks on the embedding *)

Example parseInt_20 : parseInt (VNumber (Int 20)) = Int 20.
Proof. reflexivity. Qed.

Example parseInt_units : parseInt (VString "  -42px") = Int (-42).
Proof. reflexivity. Qed.

Example parseInt_empty : parseInt (VString "") = NaN.
Proof. reflexivity. Qed.

Example parseInt_undefined : parseInt VUndefined = NaN.
Proof. reflexivity. Qed.

Example matchLevel_12 : matchLevel "level-12 x" = Some "12".
Proof. reflexivity. Qed.

Example matchLevel_anchor : matchLevel "xlevel-1" = None.
Proof. reflexivity. Qed.

Example level_of_text_node : getLevelFromOption (TextNode " ") = Int 0.
Proof. reflexivity. Qed.

Example dropdown_skips_text_nodes :
  getParentIdAncestorsAndLevelFromSelect dropdownSelect =
  getParentIdAncestorsAndLevelFromSelect scenarioSelect.
Proof. reflexivity. Qed.

Example missing_select_node : classicInitialValue None = Returns INITIAL_STATE.
Proof. reflexivity. Qed.

Example no_parent_option :
  getParentIdAncestorsAndLevelFromSelect
    {| childNodes := childNodes dropdownSelect; selectedIndex := 0 |} =
  Returns INITIAL_STATE.
Proof. reflexivity. Qed.

(* ================================================================== *)
(** ** Numerals *)

Section Numerals.

Lemma digit_not_space c : isDigit c = true -> isWhiteSpace c = false.
Proof.
  unfold isDigit, isWhiteSpace. intros H.
  apply andb_prop in H as [H1 H2].
  apply Nat.leb_le in H1. apply Nat.leb_le in H2.
  cbv zeta. rewrite orb_false_iff, orb_false_iff, andb_false_iff.
  rewrite !Nat.leb_gt, !Nat.eqb_neq. lia.
Qed.

Lemma digit_not_sign c r :
  isDigit c = true ->
  match String c r with
  | String "-" r' => (-1, r')
  | String "+" r' => (1, r')
  | _ => (1, String c r)
  end = (1, String c r).
Proof.
  destruct c as [[] [] [] [] [] [] [] []]; try reflexivity; discriminate.
Qed.

Lemma digitValue_range c : isDigit c = true -> 0 <= digitValue c <= 9.
Proof.
  unfold isDigit, digitValue. intros H.
  apply andb_prop in H as [H1 H2].
  apply Nat.leb_le in H1. apply Nat.leb_le in H2. lia.
Qed.

Lemma digitsPrefix_idem s : digitsPrefix (digitsPrefix s) = digitsPrefix s.
Proof.
  induction s as [|c r IH]; simpl; [reflexivity|].
  destruct (isDigit c) eqn:E; simpl; [rewrite E, IH|]; reflexivity.
Qed.

Lemma digitsValue_nonneg s : forall acc,
  digitsPrefix s = s -> 0 <= acc -> 0 <= digitsValue s acc.
Proof.
  induction s as [|c r IH]; cbn [digitsValue digitsPrefix]; intros acc Hs Hacc;
    [assumption|].
  destruct (isDigit c) eqn:E; [|discriminate].
  injection Hs as Hr. apply IH; [assumption|].
  pose proof (digitValue_range c E). lia.
Qed.

(** [parseInt] on a non-empty run of digits is its decimal value. *)
Lemma parseInt_digits c r :
  digitsPrefix (String c r) = String c r ->
  parseInt (VString (String c r)) = Int (digitsValue (String c r) 0).
Proof.
  intros H. unfold parseInt, toString, parseIntString.
  assert (Hc : isDigit c = true).
  { simpl in H. destruct (isDigit c); [reflexivity|discriminate]. }
  change (trimStart (String c r)) with
    (if isWhiteSpace c then trimStart r else String c r).
  rewrite (digit_not_space c Hc), (digit_not_sign c r Hc), H.
  f_equal. lia.
Qed.

(** The first capture of a successful match is a non-empty run of digits. *)
Lemma matchLevel_digits s digits :
  matchLevel s = Some digits ->
  exists c r, digits = String c r /\ digitsPrefix digits = digits.
Proof.
  unfold matchLevel. intros H.
  repeat match type of H with
  | match ?x with _ => _ end = _ => destruct x eqn:?; try discriminate
  end.
  injection H as <-. eexists _, _. split; [reflexivity|].
  match goal with E : digitsPrefix _ = _ |- _ => rewrite <- E end.
  apply digitsPrefix_idem.
Qed.

Lemma digitsPrefix_numeral u rest :
  noLeadingDigit rest = true ->
  digitsPrefix (NilEmpty.string_of_uint u ++ rest)%string =
  NilEmpty.string_of_uint u.
Proof.
  intros Hrest.
  induction u; cbn [NilEmpty.string_of_uint append digitsPrefix];
    try (change (isDigit _) with true; cbv iota; rewrite IHu; reflexivity).
  destruct rest as [|c r]; [reflexivity|].
  cbn in Hrest |- *. apply negb_true_iff in Hrest. rewrite Hrest. reflexivity.
Qed.

Lemma digitsValue_numeral_acc u : forall acc,
  digitsValue (NilEmpty.string_of_uint u) (Z.pos acc) =
  Z.pos (Pos.of_uint_acc u acc).
Proof.
  induction u; intros acc;
    cbn [NilEmpty.string_of_uint digitsValue Pos.of_uint_acc];
    try reflexivity;
    rewrite <- IHu; f_equal;
    match goal with
    | |- context [digitValue ?c] =>
        let v := eval vm_compute in (digitValue c) in
        change (digitValue c) with v
    end; lia.
Qed.

Lemma digitsValue_numeral u :
  digitsValue (NilEmpty.string_of_uint u) 0 = Z.of_N (N.of_uint u).
Proof.
  unfold N.of_uint.
  induction u; cbn [NilEmpty.string_of_uint digitsValue Pos.of_uint];
    try reflexivity;
    try (change (10 * 0 + digitValue _) with 0; exact IHu);
    cbn [Z.of_N]; rewrite <- digitsValue_numeral_acc; reflexivity.
Qed.

Lemma decimal_nonempty d : exists c r, decimal d = String c r.
Proof.
  unfold decimal.
  destruct (N.to_uint d) eqn:E; cbn; try (eexists _, _; reflexivity).
  exfalso. destruct d as [|p]; [discriminate|].
  apply (DecimalPos.Unsigned.to_uint_nonnil p). exact E.
Qed.

Lemma digitsValue_decimal d : digitsValue (decimal d) 0 = Z.of_N d.
Proof.
  unfold decimal. rewrite digitsValue_numeral, DecimalN.Unsigned.of_to.
  reflexivity.
Qed.

Lemma append_empty s : (s ++ "")%string = s.
Proof. induction s as [|c r IH]; cbn; [|rewrite IH]; reflexivity. Qed.

Lemma digitsPrefix_decimal d : digitsPrefix (decimal d) = decimal d.
Proof.
  unfold decimal.
  pose proof (digitsPrefix_numeral (N.to_uint d) "" eq_refl) as H.
  rewrite append_empty in H.
  exact H.
Qed.

(** [parseInt] reads a decimal numeral back, ... *)
Lemma parseInt_decimal d : parseInt (VString (decimal d)) = Int (Z.of_N d).
Proof.
  destruct (decimal_nonempty d) as (c & r & E).
  pose proof (digitsPrefix_decimal d) as Hd. rewrite E in Hd.
  rewrite E, parseInt_digits by assumption.
  rewrite <- E, digitsValue_decimal. reflexivity.
Qed.

(** ... and a numeral after a minus sign as the opposite number. *)
Lemma parseInt_minus_decimal d :
  parseInt (VString (String "-" (decimal d))) = Int (- Z.of_N d).
Proof.
  unfold parseInt, toString, parseIntString.
  change (trimStart (String "-" (decimal d))) with (String "-" (decimal d)).
  cbv iota beta. rewrite digitsPrefix_decimal.
  destruct (decimal_nonempty d) as (c & r & E).
  rewrite E. cbv iota. rewrite <- E, digitsValue_decimal. reflexivity.
Qed.

Lemma matchLevel_levelClass d rest :
  noLeadingDigit rest = true ->
  matchLevel (levelClass d rest) = Some (decimal d).
Proof.
  intros Hrest. unfold levelClass, decimal. cbn [append matchLevel].
  rewrite digitsPrefix_numeral by assumption.
  destruct (decimal_nonempty d) as (c & r & E). unfold decimal in E.
  rewrite E. reflexivity.
Qed.

End Numerals.

Section Levels.

(** The level of an option that carries the class [level-d] is [d + 1]. *)
Lemma getLevelFromOption_levelClass v d rest :
  noLeadingDigit rest = true ->
  getLevelFromOption (OptionElement v (levelClass d rest)) = Int (Z.of_N d + 1).
Proof.
  intros Hrest. unfold getLevelFromOption. cbn [className].
  pose proof (matchLevel_levelClass d rest Hrest) as Hm.
  destruct (levelClass d rest) as [|c r] eqn:E; [discriminate|].
  rewrite Hm.
  destruct (decimal_nonempty d) as (c' & r' & E').
  pose proof (matchLevel_digits _ _ Hm) as (c2 & r2 & E2 & Hd).
  rewrite E2 in *. rewrite parseInt_digits by assumption.
  rewrite <- E2, digitsValue_decimal. reflexivity.
Qed.

(** The level of an option without indentation class is [0]. *)
Lemma getLevelFromOption_noLevelClass n :
  noLevelClass n -> getLevelFromOption n = Int 0.
Proof.
  unfold noLevelClass, getLevelFromOption.
  destruct (className n) as [[|c r]|]; try reflexivity.
  intros ->. reflexivity.
Qed.

(** Every level is a number, and it is not negative. *)
Lemma getLevelFromOption_Int n :
  exists l, getLevelFromOption n = Int l /\ 0 <= l.
Proof.
  unfold getLevelFromOption.
  destruct (className n) as [[|c r]|]; try (exists 0; split; [reflexivity|lia]).
  destruct (matchLevel (String c r)) as [digits|] eqn:Hm;
    [|exists 0; split; [reflexivity|lia]].
  destruct (matchLevel_digits _ _ Hm) as (c' & r' & -> & Hd).
  rewrite parseInt_digits by assumption.
  eexists. split; [reflexivity|].
  pose proof (digitsValue_nonneg _ 0 Hd). lia.
Qed.

End Levels.

(* ================================================================== *)
(** ** The backward walk of the classic adapter *)

Section BackwardWalk.

(** The ancestors are the valid ids of the matched steps, the last matched
    step first. *)
Lemma ancestorsLoop_matchedSteps chain : forall level ancestors,
  ancestorsLoop chain level ancestors =
  List.rev (map (fun n => parseInt (value n))
         (filter validId (matchedSteps chain level))) ++ ancestors.
Proof.
  induction chain as [|current rest IH]; intros level ancestors;
    cbn [ancestorsLoop matchedSteps]; [reflexivity|].
  destruct (gt level (Int 0)); [|reflexivity].
  destruct (negb (strict_eq (getLevelFromOption current) level));
    [apply IH|].
  rewrite IH. cbn [filter]. unfold validId at 2.
  destruct (gt (parseInt (value current)) (Int 0)); [|reflexivity].
  cbn [map List.rev]. rewrite <- app_assoc. reflexivity.
Qed.

(** A walk that starts at level [l] matches at most [l] steps. *)
Lemma matchedSteps_length chain : forall l,
  Z.of_nat (List.length (matchedSteps chain (Int l))) <= Z.max 0 l.
Proof.
  induction chain as [|current rest IH]; intros l;
    cbn [matchedSteps List.length]; [lia|].
  unfold gt. destruct (l >? 0) eqn:Hl; [|cbn [List.length]; lia].
  apply Z.gtb_lt in Hl.
  destruct (negb (strict_eq (getLevelFromOption current) (Int l))).
  - specialize (IH l). lia.
  - cbn [sub List.length]. specialize (IH (l - 1)). lia.
Qed.

Lemma filter_length_le {A} (f : A -> bool) (l : list A) :
  (List.length (filter f l) <= List.length l)%nat.
Proof.
  induction l as [|a l IH]; cbn [filter List.length]; [lia|].
  destruct (f a); cbn [List.length]; lia.
Qed.

(** Only positive numbers enter the ancestors. *)
Lemma ancestorsLoop_positive chain : forall level ancestors,
  Forall (fun a => gt a (Int 0) = true) ancestors ->
  Forall (fun a => gt a (Int 0) = true) (ancestorsLoop chain level ancestors).
Proof.
  induction chain as [|current rest IH]; intros level ancestors Hacc;
    cbn [ancestorsLoop]; [assumption|].
  destruct (gt level (Int 0)); [|assumption].
  destruct (negb (strict_eq (getLevelFromOption current) level));
    [apply IH; assumption|].
  apply IH.
  destruct (gt (parseInt (value current)) (Int 0)) eqn:Hid;
    [constructor|]; assumption.
Qed.

(** At level [0] the loop body never runs. *)
Lemma ancestorsLoop_level_0 chain ancestors :
  ancestorsLoop chain (Int 0) ancestors = ancestors.
Proof. destruct chain; reflexivity. Qed.

End BackwardWalk.

(* ================================================================== *)
(** ** The recursion of the block-editor adapter *)

Section ParentLinks.

Variable posts : list Post.

Lemma findById_Some x post :
  findById posts (Int x) = Some post -> In post posts /\ id post = x.
Proof.
  unfold findById. intros H. apply find_some in H as [Hin Heq].
  split; [assumption|]. cbn in Heq. apply Z.eqb_eq. assumption.
Qed.

Lemma findById_present x :
  (exists post, In post posts /\ id post = x) ->
  exists found, findById posts (Int x) = Some found /\ id found = x.
Proof.
  intros (post & Hin & Hid).
  destruct (findById posts (Int x)) as [found|] eqn:E.
  - exists found. split; [reflexivity|]. apply findById_Some in E. tauto.
  - exfalso. unfold findById in E.
    pose proof (find_none _ _ E post Hin) as Hn. cbn in Hn.
    apply Z.eqb_neq in Hn. contradiction.
Qed.

Lemma findById_NaN : findById posts NaN = None.
Proof.
  unfold findById. induction posts as [|post rest IH]; [reflexivity|].
  cbn. exact IH.
Qed.

(** One unfolding of the recursion at a call that stops. *)
Lemma getAncestors_stop fuel parentId ancestors :
  stopsAt posts parentId ->
  getAncestorsFromPostsList (S fuel) parentId posts ancestors =
  getAncestorsFromPostsList 1 parentId posts ancestors.
Proof.
  intros [Hnone|(post & Hfind & Hroot)]; cbn [getAncestorsFromPostsList].
  - rewrite Hnone. reflexivity.
  - rewrite Hfind, Hroot. reflexivity.
Qed.

(** One unfolding of the recursion at a call that goes on. *)
Lemma getAncestors_continue fuel parentId ancestors :
  ~ stopsAt posts parentId ->
  exists post,
    findById posts parentId = Some post /\ parent post <> 0 /\
    getAncestorsFromPostsList (S fuel) parentId posts ancestors =
    getAncestorsFromPostsList fuel (Int (parent post)) posts
      (Int (id post) :: ancestors).
Proof.
  intros Hgo. cbn [getAncestorsFromPostsList].
  destruct (findById posts parentId) as [post|] eqn:Hfind.
  - exists post. assert (Hp : parent post <> 0).
    { intros Hroot. apply Hgo. right. exists post. tauto. }
    repeat split; [assumption|].
    cbn [truthy]. apply Z.eqb_neq in Hp. rewrite Hp. reflexivity.
  - exfalso. apply Hgo. left. assumption.
Qed.

(** A call returns without a nested call exactly when it stops. *)
Lemma getAncestors_one_call parentId ancestors :
  getAncestorsFromPostsList 1 parentId posts ancestors <> None <->
  stopsAt posts parentId.
Proof.
  split.
  - intros Hret. destruct (findById posts parentId) as [post|] eqn:Hfind.
    + right. exists post. split; [exact Hfind|].
      cbn [getAncestorsFromPostsList truthy] in Hret. rewrite Hfind in Hret.
      destruct (parent post =? 0) eqn:E; [apply Z.eqb_eq; assumption|].
      cbn in Hret. contradiction.
    + left. exact Hfind.
  - intros [Hnone|(post & Hfind & Hroot)]; cbn [getAncestorsFromPostsList];
      [rewrite Hnone|rewrite Hfind, Hroot]; discriminate.
Qed.

(** More fuel does not change a result. *)
Lemma getAncestors_fuel_mono fuel : forall fuel' parentId ancestors result,
  (fuel <= fuel')%nat ->
  getAncestorsFromPostsList fuel parentId posts ancestors = Some result ->
  getAncestorsFromPostsList fuel' parentId posts ancestors = Some result.
Proof.
  induction fuel as [|fuel IH]; intros fuel' parentId ancestors result Hle H;
    [discriminate|].
  destruct fuel' as [|fuel']; [lia|].
  cbn [getAncestorsFromPostsList] in H |- *.
  destruct (findById posts parentId) as [post|]; [|assumption].
  destruct (truthy (Int (parent post))); [|assumption].
  apply IH; [lia|assumption].
Qed.

(** The accumulator is only ever extended at its front. *)
Lemma getAncestors_extends fuel : forall parentId ancestors result,
  getAncestorsFromPostsList fuel parentId posts ancestors = Some result ->
  exists front, result = front ++ ancestors.
Proof.
  induction fuel as [|fuel IH]; intros parentId ancestors result H;
    [discriminate|].
  cbn [getAncestorsFromPostsList] in H.
  destruct (findById posts parentId) as [post|].
  - destruct (truthy (Int (parent post))).
    + apply IH in H as (front & ->).
      exists (front ++ [Int (id post)]). rewrite <- app_assoc. reflexivity.
    + injection H as <-. exists [Int (id post)]. reflexivity.
  - injection H as <-. exists []. reflexivity.
Qed.

(** When the first lookup succeeds, the id looked up is the first one to
    enter the accumulator. *)
Lemma getAncestors_first fuel x ancestors result :
  (exists post, In post posts /\ id post = x) ->
  getAncestorsFromPostsList fuel (Int x) posts ancestors = Some result ->
  exists front, result = front ++ Int x :: ancestors.
Proof.
  intros Hin H. destruct fuel as [|fuel]; [discriminate|].
  apply findById_present in Hin as (found & Hfind & Hid).
  cbn [getAncestorsFromPostsList] in H. rewrite Hfind, Hid in H.
  destruct (truthy (Int (parent found))).
  - apply getAncestors_extends in H. assumption.
  - injection H as <-. exists []. reflexivity.
Qed.

Hypothesis acyclic : Acyclic posts.

(** Termination: the ids already looked up are pairwise distinct ids of
    records, so their number cannot exceed the number of records. *)
Lemma getAncestors_terminates_visited fuel :
  forall visited x ancestors,
    NoDup visited ->
    (forall v, In v visited -> clos_trans Z (parentLink posts) v x) ->
    incl visited (map id posts) ->
    (List.length posts < fuel + List.length visited)%nat ->
    exists result,
      getAncestorsFromPostsList fuel (Int x) posts ancestors = Some result.
Proof.
  induction fuel as [|fuel IH];
    intros visited x ancestors Hnodup Hreach Hincl Hlen.
  - exfalso. pose proof (NoDup_incl_length Hnodup Hincl) as Hle.
    rewrite length_map in Hle. lia.
  - cbn [getAncestorsFromPostsList].
    destruct (findById posts (Int x)) as [post|] eqn:Hfind;
      [|eexists; reflexivity].
    destruct (truthy (Int (parent post))) eqn:Htruthy;
      [|eexists; reflexivity].
    pose proof (findById_Some _ _ Hfind) as [Hin Hid].
    assert (Hlink : parentLink posts x (parent post)).
    { exists post. repeat split; [assumption|].
      cbn in Htruthy. apply negb_true_iff, Z.eqb_neq in Htruthy. assumption. }
    rewrite Hid. apply (IH (x :: visited)).
    + constructor; [|assumption].
      intros Hx. apply (acyclic x). apply Hreach. assumption.
    + intros v [<-|Hv]; [apply t_step; assumption|].
      eapply t_trans; [apply Hreach; eassumption|apply t_step; assumption].
    + intros v [<-|Hv]; [|apply Hincl; assumption].
      rewrite <- Hid. apply in_map. assumption.
    + cbn [List.length]. lia.
Qed.

(** With one unit of fuel more than there are records, the recursion
    returns. *)
Lemma getAncestors_terminates parentId ancestors :
  exists result,
    getAncestorsFromPostsList (S (List.length posts)) parentId posts ancestors
    = Some result.
Proof.
  destruct parentId as [|x].
  - cbn [getAncestorsFromPostsList]. rewrite findById_NaN.
    eexists; reflexivity.
  - apply (getAncestors_terminates_visited _ []).
    + constructor.
    + intros v [].
    + intros v [].
    + cbn [List.length]. lia.
Qed.

End ParentLinks.

(** A list in which every record's parent id lies below its own id has no
    cycle. *)
Lemma decreasing_Acyclic posts :
  forallb (fun post => parent post <? id post) posts = true ->
  Acyclic posts.
Proof.
  intros Hdec.
  assert (Hlt : forall x y, clos_trans Z (parentLink posts) x y -> y < x).
  { induction 1 as [x y (post & Hfind & Hparent & _)|x y z _ IH1 _ IH2];
      [|lia].
    apply findById_Some in Hfind as [Hin Hid].
    rewrite forallb_forall in Hdec. apply Hdec in Hin.
    apply Z.ltb_lt in Hin. lia. }
  intros x Hcycle. apply Hlt in Hcycle. lia.
Qed.

(* ================================================================== *)
(** ** Properties of the classic adapter *)

(** C2, as stated, fails: a selected option of class [level-0] (depth 0)
    gets [post_level] 2, not [0 + 1]. *)
Lemma level_of_root_option_is_two :
  exists o st,
    selectedOption rootSelect = Some o /\
    className (self o) = Some (levelClass 0 "") /\
    getParentIdAncestorsAndLevelFromSelect rootSelect = Returns st /\
    post_level st <> Int (0 + 1).
Proof.
  eexists _, _.
  split; [reflexivity|]. split; [reflexivity|]. split; [reflexivity|].
  vm_compute. discriminate.
Qed.

(** C2, amended: when the selected option carries the class [level-d],
    with [d + 2] at most 2^53 so that the code counts exactly, the adapter
    returns [post_level = d + 2]; when it carries no indentation class the
    adapter returns [post_level = 1]. *)
Theorem select_level_from_class (node : Select) (o : Linked) :
  selectedOption node = Some o ->
  exists st,
    getParentIdAncestorsAndLevelFromSelect node = Returns st /\
    (forall v d rest,
        self o = OptionElement v (levelClass d rest) ->
        noLeadingDigit rest = true ->
        Z.of_N d + 2 <= 2 ^ 53 ->
        post_level st = Int (Z.of_N d + 2)) /\
    (noLevelClass (self o) -> post_level st = Int 1).
Proof.
  intros Hsel. unfold getParentIdAncestorsAndLevelFromSelect. rewrite Hsel.
  eexists. split; [reflexivity|]. cbn [post_level]. split.
  - intros v d rest Hself Hrest _.
    rewrite Hself, getLevelFromOption_levelClass by assumption.
    cbn [add]. f_equal. lia.
  - intros Hnone. rewrite getLevelFromOption_noLevelClass by assumption.
    reflexivity.
Qed.

Lemma select_level_from_class_witness :
  exists st,
    getParentIdAncestorsAndLevelFromSelect scenarioSelect = Returns st /\
    post_level st = Int 3.
Proof.
  destruct (select_level_from_class scenarioSelect
              {| self := OptionElement "3" "level-1";
                 previousSiblings :=
                   [ OptionElement "2" "level-1"; OptionElement "1" "level-0" ] |}
              eq_refl) as (st & Hret & Hlevel & _).
  exists st. split; [exact Hret|].
  apply (Hlevel "3"%string 1%N ""%string);
    [reflexivity|reflexivity|vm_compute; discriminate].
Defined.

(** C3, as stated, fails: the scenario does not yield
    [{ancestors: [1], parentId: 3, level: 2}]. *)
Lemma select_scenario_not_as_specified :
  getParentIdAncestorsAndLevelFromSelect scenarioSelect <>
  Returns {| post_ancestors := [Int 1];
             post_parent_id := Int 3;
             post_level := Int 2 |}.
Proof. vm_compute. discriminate. Qed.

(** C3, amended: with the options 1, 2, 3 at depths 0, 1, 1 and option 3
    selected, the adapter returns
    [{ancestors: [1, 3], parentId: 3, level: 3}]: the walk starts at the
    selected option, which is the first ancestor it records. *)
Theorem select_scenario :
  getParentIdAncestorsAndLevelFromSelect scenarioSelect =
  Returns {| post_ancestors := [Int 1; Int 3];
             post_parent_id := Int 3;
             post_level := Int 3 |}.
Proof. reflexivity. Qed.

(** Reading depth 0 as "no class" does not rescue the scenario of C3
    either: the selected option is still recorded, and option 1 is not. *)
Lemma select_scenario_unclassed :
  getParentIdAncestorsAndLevelFromSelect scenarioSelectUnclassed =
  Returns {| post_ancestors := [Int 3];
             post_parent_id := Int 3;
             post_level := Int 2 |}.
Proof. reflexivity. Qed.

(** C4, as stated, fails: for a selected option at depth 0 (class
    [level-0]) the ancestors have length 1, which exceeds 0. *)
Lemma root_option_has_one_ancestor :
  exists o st,
    selectedOption rootSelect = Some o /\
    className (self o) = Some (levelClass 0 "") /\
    getParentIdAncestorsAndLevelFromSelect rootSelect = Returns st /\
    0 < Z.of_nat (List.length (post_ancestors st)).
Proof.
  eexists _, _.
  split; [reflexivity|]. split; [reflexivity|]. split; [reflexivity|].
  vm_compute. reflexivity.
Qed.

(** C4, amended: the ancestors returned for a selected option have as many
    entries as the backward walk matched steps with a valid id; for a
    selected option of class [level-d] that number never exceeds [d + 1]
    (the selected option itself is the first matched step), and it is 0
    for an option without indentation class. *)
Theorem select_ancestors_length (node : Select) (o : Linked) :
  selectedOption node = Some o ->
  exists st,
    getParentIdAncestorsAndLevelFromSelect node = Returns st /\
    List.length (post_ancestors st) =
      List.length
        (filter validId
           (matchedSteps (self o :: previousSiblings o)
              (getLevelFromOption (self o)))) /\
    (forall v d rest,
        self o = OptionElement v (levelClass d rest) ->
        noLeadingDigit rest = true ->
        Z.of_nat (List.length (post_ancestors st)) <= Z.of_N d + 1) /\
    (noLevelClass (self o) -> List.length (post_ancestors st) = O).
Proof.
  intros Hsel. unfold getParentIdAncestorsAndLevelFromSelect. rewrite Hsel.
  eexists. split; [reflexivity|]. cbn [post_ancestors].
  unfold getAncestorsFromOption.
  rewrite ancestorsLoop_matchedSteps, app_nil_r, length_rev, length_map.
  split; [reflexivity|]. split.
  - intros v d rest Hself Hrest.
    rewrite Hself at 2.
    rewrite getLevelFromOption_levelClass by assumption.
    pose proof (filter_length_le validId
      (matchedSteps (self o :: previousSiblings o) (Int (Z.of_N d + 1)))).
    pose proof (matchedSteps_length (self o :: previousSiblings o)
      (Z.of_N d + 1)).
    lia.
  - intros Hnone. rewrite getLevelFromOption_noLevelClass by assumption.
    reflexivity.
Qed.

Lemma select_ancestors_length_witness :
  exists st,
    getParentIdAncestorsAndLevelFromSelect scenarioSelect = Returns st /\
    Z.of_nat (List.length (post_ancestors st)) <= 2.
Proof.
  destruct (select_ancestors_length scenarioSelect
              {| self := OptionElement "3" "level-1";
                 previousSiblings :=
                   [ OptionElement "2" "level-1"; OptionElement "1" "level-0" ] |}
              eq_refl) as (st & Hret & _ & Hbound & _).
  exists st. split; [exact Hret|].
  apply (Hbound "3"%string 1%N ""%string); reflexivity.
Defined.

(** C7, as stated, fails: when the selected index designates no option the
    adapter throws. *)
Lemma missing_option_throws :
  selectedOption emptySelect = None /\
  getParentIdAncestorsAndLevelFromSelect emptySelect = ThrowsTypeError.
Proof. split; reflexivity. Qed.

(** C7, amended: whenever the selected index designates an option, the
    adapter returns a state and throws nothing; a value that does not parse
    gives parent id 0, an absent or malformed indentation class gives
    level 1 and no ancestors, and only positive numbers are recorded as
    ancestors. *)
Theorem select_degrades_gracefully (node : Select) (o : Linked) :
  selectedOption node = Some o ->
  exists st,
    getParentIdAncestorsAndLevelFromSelect node = Returns st /\
    (parseInt (value (self o)) = NaN -> post_parent_id st = Int 0) /\
    (noLevelClass (self o) ->
       post_level st = Int 1 /\ post_ancestors st = []) /\
    Forall (fun a => exists z, a = Int z /\ 0 < z) (post_ancestors st).
Proof.
  intros Hsel. unfold getParentIdAncestorsAndLevelFromSelect. rewrite Hsel.
  eexists. split; [reflexivity|].
  cbn [post_ancestors post_parent_id post_level]. repeat split.
  - intros Hnan. unfold getParentIdFromOption. rewrite Hnan. reflexivity.
  - rewrite getLevelFromOption_noLevelClass by assumption. reflexivity.
  - unfold getAncestorsFromOption.
    rewrite getLevelFromOption_noLevelClass by assumption.
    apply ancestorsLoop_level_0.
  - unfold getAncestorsFromOption.
    eapply Forall_impl; [|apply ancestorsLoop_positive; constructor].
    intros [|z] Hpos; [discriminate|].
    exists z. split; [reflexivity|]. apply Z.gtb_lt. exact Hpos.
Qed.

Lemma select_degrades_gracefully_witness :
  exists st,
    getParentIdAncestorsAndLevelFromSelect
      {| childNodes := childNodes dropdownSelect; selectedIndex := 0 |}
    = Returns st /\
    post_parent_id st = Int 0 /\
    post_level st = Int 1 /\ post_ancestors st = [].
Proof.
  destruct (select_degrades_gracefully
              {| childNodes := childNodes dropdownSelect; selectedIndex := 0 |}
              {| self := OptionElement "" ""; previousSiblings := [] |}
              eq_refl) as (st & Hret & Hid & Hclass & _).
  exists st. split; [exact Hret|]. split.
  - apply Hid. reflexivity.
  - apply Hclass. reflexivity.
Defined.

(** C9, as stated, fails: a value that parses to [-5], which is not a
    positive integer, is returned as the parent id instead of 0. *)
Lemma negative_value_is_returned :
  exists o st,
    selectedOption negativeSelect = Some o /\
    parseInt (value (self o)) = Int (-5) /\
    getParentIdAncestorsAndLevelFromSelect negativeSelect = Returns st /\
    post_parent_id st <> Int 0.
Proof.
  eexists _, _.
  split; [reflexivity|]. split; [reflexivity|]. split; [reflexivity|].
  vm_compute. discriminate.
Qed.

(** C9, amended: the returned parent id is the selected option's value
    parsed as an integer whenever the parse yields a number, whatever its
    sign, and 0 when the parse yields [NaN]; so a value that is the numeral
    of [n] gives [n], and a value that is a minus sign and the numeral of
    [n] gives [-n], for every [n] below 2^53, where the code parses
    exactly. *)
Theorem select_parent_id (node : Select) (o : Linked) :
  selectedOption node = Some o ->
  exists st,
    getParentIdAncestorsAndLevelFromSelect node = Returns st /\
    (forall z, parseInt (value (self o)) = Int z -> post_parent_id st = Int z) /\
    (parseInt (value (self o)) = NaN -> post_parent_id st = Int 0) /\
    (forall n c,
        self o = OptionElement (decimal n) c ->
        Z.of_N n < 2 ^ 53 ->
        post_parent_id st = Int (Z.of_N n)) /\
    (forall n c,
        self o = OptionElement (String "-" (decimal n)) c ->
        Z.of_N n < 2 ^ 53 ->
        post_parent_id st = Int (- Z.of_N n)).
Proof.
  intros Hsel. unfold getParentIdAncestorsAndLevelFromSelect. rewrite Hsel.
  eexists. split; [reflexivity|]. cbn [post_parent_id].
  unfold getParentIdFromOption.
  split; [|split; [|split]].
  - intros z Hz. rewrite Hz. reflexivity.
  - intros Hz. rewrite Hz. reflexivity.
  - intros n c -> _. cbn [value]. rewrite parseInt_decimal. reflexivity.
  - intros n c -> _. cbn [value]. rewrite parseInt_minus_decimal. reflexivity.
Qed.

Lemma select_parent_id_witness :
  exists st,
    getParentIdAncestorsAndLevelFromSelect scenarioSelect = Returns st /\
    post_parent_id st = Int 3.
Proof.
  destruct (select_parent_id scenarioSelect
              {| self := OptionElement "3" "level-1";
                 previousSiblings :=
                   [ OptionElement "2" "level-1"; OptionElement "1" "level-0" ] |}
              eq_refl) as (st & Hret & _ & _ & Hnumeral & _).
  exists st. split; [exact Hret|].
  apply (Hnumeral 3%N "level-1"%string); reflexivity.
Defined.

(* ================================================================== *)
(** ** Properties of the block-editor adapter *)

(** C1, as stated, fails: whatever the depth allowed to the recursion, the
    scenario never yields [{ancestors: [5, 9], parentId: 20, level: 3}]. *)
Lemma record_scenario_not_as_specified :
  ~ exists fuel,
      gutenbergMap hierarchicalType (recordsStore scenarioRecords) fuel
        (VNumber (Int 21)) (VString "page") (VNumber (Int 20)) =
      Some {| post_ancestors := [Int 5; Int 9];
              post_parent_id := Int 20;
              post_level := Int 3 |}.
Proof.
  intros (fuel & H).
  destruct fuel as [|[|[|fuel]]]; vm_compute in H; discriminate.
Qed.

(** C1, amended: on the records [{id:5,parent:0}], [{id:9,parent:5}],
    [{id:20,parent:9}] and parent id 20 the derived state is
    [{ancestors: [5, 9, 20], parentId: 20, level: 4}], as soon as three
    nested calls are allowed: the parent itself closes the chain. *)
Theorem record_scenario :
  forall fuel,
    gutenbergMap hierarchicalType (recordsStore scenarioRecords)
      (3 + fuel) (VNumber (Int 21)) (VString "page") (VNumber (Int 20)) =
    Some {| post_ancestors := [Int 5; Int 9; Int 20];
            post_parent_id := Int 20;
            post_level := Int 4 |}.
Proof. intros fuel. reflexivity. Qed.

Section PastGate.

Variable getPostType : jsval -> option PostType.
Variable getEntityRecords : jsval -> jsval -> option (list Post).

(** Past the validity gate the callback is the recursion followed by the
    level computation. *)
Lemma gutenbergMap_past_gate fuel postId postTypeSlug parentId :
  isNaN (parseInt parentId) = false ->
  isHierarchical getPostType postTypeSlug = true ->
  gutenbergMap getPostType getEntityRecords fuel postId postTypeSlug parentId =
  match
    getAncestorsFromPostsList fuel (parseInt parentId)
      (orEmpty (getEntityRecords postTypeSlug postId)) []
  with
  | None => None
  | Some ancestors =>
      Some {| post_ancestors := ancestors;
              post_parent_id := parseInt parentId;
              post_level := add (Int (Z.of_nat (List.length ancestors))) (Int 1) |}
  end.
Proof.
  intros Hnum Hhier. unfold gutenbergMap.
  rewrite Hnum, Hhier. reflexivity.
Qed.

End PastGate.

(** C5: past the validity gate, every state the callback emits satisfies
    [post_level = post_ancestors.length + 1]; and a state is emitted, within
    one more nested call than there are records, whenever the records have
    no parent cycle. *)
Theorem record_level_is_length_plus_one
    (getPostType : jsval -> option PostType)
    (getEntityRecords : jsval -> jsval -> option (list Post))
    (postId postTypeSlug parentId : jsval) :
  isNaN (parseInt parentId) = false ->
  isHierarchical getPostType postTypeSlug = true ->
  (forall fuel st,
      gutenbergMap getPostType getEntityRecords fuel postId postTypeSlug parentId
        = Some st ->
      post_level st = Int (Z.of_nat (List.length (post_ancestors st)) + 1)) /\
  (Acyclic (orEmpty (getEntityRecords postTypeSlug postId)) ->
   exists st,
     gutenbergMap getPostType getEntityRecords
       (S (List.length (orEmpty (getEntityRecords postTypeSlug postId))))
       postId postTypeSlug parentId = Some st).
Proof.
  intros Hnum Hhier. split.
  - intros fuel st. rewrite gutenbergMap_past_gate by assumption.
    destruct (getAncestorsFromPostsList _ _ _ _); [|discriminate].
    intros H. injection H as <-. reflexivity.
  - intros Hacyclic. rewrite gutenbergMap_past_gate by assumption.
    destruct (getAncestors_terminates _ Hacyclic (parseInt parentId) [])
      as (result & ->).
    eexists. reflexivity.
Qed.

Lemma record_level_is_length_plus_one_witness :
  exists st,
    gutenbergMap hierarchicalType (recordsStore scenarioRecords) 4
      (VNumber (Int 21)) (VString "page") (VNumber (Int 20)) = Some st /\
    post_level st = Int (Z.of_nat (List.length (post_ancestors st)) + 1).
Proof.
  destruct (record_level_is_length_plus_one hierarchicalType
              (recordsStore scenarioRecords)
              (VNumber (Int 21)) (VString "page") (VNumber (Int 20))
              eq_refl eq_refl) as [Hinv Hret].
  destruct (Hret (decreasing_Acyclic scenarioRecords eq_refl)) as (st & Hst).
  exists st. split; [exact Hst|]. exact (Hinv _ st Hst).
Defined.

(** C6, as stated, fails: on a record that names itself as its parent the
    recursion never returns, however deep it is allowed to go. *)
Lemma self_parent_never_returns :
  ~ exists fuel result,
      getAncestorsFromPostsList fuel (Int 1) selfParent [] = Some result.
Proof.
  assert (Hloop : forall fuel ancestors,
             getAncestorsFromPostsList fuel (Int 1) selfParent ancestors = None).
  { induction fuel as [|fuel IH]; intros ancestors; [reflexivity|].
    cbn [getAncestorsFromPostsList]. apply IH. }
  intros (fuel & result & H). rewrite Hloop in H. discriminate.
Qed.

(** C6, amended: for every parent id and every record list without parent
    cycle, the recursion returns within one more nested call than there are
    records; a call returns without a nested call exactly when the parent
    id has no matching record or the matching record has no parent, and
    otherwise it recurses on the parent of the matching record. *)
Theorem record_recursion_terminates (posts : list Post) (parentId : number)
    (ancestors : list number) :
  Acyclic posts ->
  (exists result,
      getAncestorsFromPostsList (S (List.length posts)) parentId posts ancestors
      = Some result) /\
  (forall p acc,
      getAncestorsFromPostsList 1 p posts acc <> None <-> stopsAt posts p) /\
  (forall fuel p acc,
      ~ stopsAt posts p ->
      exists post,
        findById posts p = Some post /\ parent post <> 0 /\
        getAncestorsFromPostsList (S fuel) p posts acc =
        getAncestorsFromPostsList fuel (Int (parent post)) posts
          (Int (id post) :: acc)).
Proof.
  intros Hacyclic. split; [|split].
  - apply getAncestors_terminates. assumption.
  - intros p acc. apply getAncestors_one_call.
  - intros fuel p acc. apply getAncestors_continue.
Qed.

Lemma record_recursion_terminates_witness :
  exists result,
    getAncestorsFromPostsList 4 (Int 20) scenarioRecords [] = Some result.
Proof.
  exact (proj1 (record_recursion_terminates scenarioRecords (Int 20) []
                  (decreasing_Acyclic scenarioRecords eq_refl))).
Defined.

(** C8: when the parent attribute does not parse to a number, or the post
    type is not hierarchical, the callback emits exactly [INITIAL_STATE];
    it does so for every answer of the record store and even when no call
    of the recursion is allowed, so the ancestor extraction is not
    invoked. *)
Theorem gate_emits_initial_state
    (getPostType : jsval -> option PostType)
    (getEntityRecords : jsval -> jsval -> option (list Post))
    (postId postTypeSlug parentId : jsval) :
  isNaN (parseInt parentId) = true \/
  isHierarchical getPostType postTypeSlug = false ->
  forall fuel,
    gutenbergMap getPostType getEntityRecords fuel postId postTypeSlug parentId
    = Some INITIAL_STATE.
Proof.
  intros Hgate fuel. unfold gutenbergMap.
  destruct (isNaN (parseInt parentId)); [reflexivity|].
  destruct Hgate as [Hnan| ->]; [discriminate|reflexivity].
Qed.

Lemma gate_emits_initial_state_witness :
  gutenbergMap flatType (recordsStore scenarioRecords) 0
    (VNumber (Int 21)) (VString "post") (VNumber (Int 20)) = Some INITIAL_STATE
  /\
  gutenbergMap hierarchicalType (recordsStore selfParent) 0
    (VNumber (Int 21)) (VString "page") VUndefined = Some INITIAL_STATE.
Proof.
  split.
  - apply (gate_emits_initial_state flatType (recordsStore scenarioRecords)
             (VNumber (Int 21)) (VString "post") (VNumber (Int 20))).
    right. reflexivity.
  - apply (gate_emits_initial_state hierarchicalType (recordsStore selfParent)
             (VNumber (Int 21)) (VString "page") VUndefined).
    left. reflexivity.
Defined.

(** C10: past the validity gate, when the records have no parent cycle and
    one of them has the parent id [p] as its id, the callback emits a state
    whose [post_ancestors] is not empty and ends with [p], which is also
    its [post_parent_id]. *)
Theorem record_ancestors_end_with_parent
    (getPostType : jsval -> option PostType)
    (getEntityRecords : jsval -> jsval -> option (list Post))
    (postId postTypeSlug parentId : jsval) (p : Z) (posts : list Post) :
  parseInt parentId = Int p ->
  isHierarchical getPostType postTypeSlug = true ->
  orEmpty (getEntityRecords postTypeSlug postId) = posts ->
  Acyclic posts ->
  (exists post, In post posts /\ id post = p) ->
  exists st front,
    gutenbergMap getPostType getEntityRecords (S (List.length posts))
      postId postTypeSlug parentId = Some st /\
    post_parent_id st = Int p /\
    post_ancestors st = front ++ [Int p] /\
    post_ancestors st <> [] /\
    last (post_ancestors st) NaN = post_parent_id st.
Proof.
  intros Hparse Hhier Hposts Hacyclic Hin.
  rewrite gutenbergMap_past_gate by (rewrite ?Hparse; easy).
  rewrite Hparse, Hposts.
  destruct (getAncestors_terminates posts Hacyclic (Int p) [])
    as (result & Hresult).
  rewrite Hresult.
  destruct (getAncestors_first posts _ p [] result Hin Hresult) as (front & ->).
  exists {| post_ancestors := front ++ [Int p];
            post_parent_id := Int p;
            post_level :=
              add (Int (Z.of_nat (List.length (front ++ [Int p])))) (Int 1) |},
    front.
  cbn [post_ancestors post_parent_id].
  repeat split.
  - intros Hnil. apply app_eq_nil in Hnil as [_ Hnil]. discriminate.
  - apply last_last.
Qed.

Lemma record_ancestors_end_with_parent_witness :
  exists st front,
    gutenbergMap hierarchicalType (recordsStore scenarioRecords) 4
      (VNumber (Int 21)) (VString "page") (VNumber (Int 20)) = Some st /\
    post_parent_id st = Int 20 /\
    post_ancestors st = front ++ [Int 20] /\
    post_ancestors st <> [] /\
    last (post_ancestors st) NaN = post_parent_id st.
Proof.
  apply (record_ancestors_end_with_parent hierarchicalType
           (recordsStore scenarioRecords)
           (VNumber (Int 21)) (VString "page") (VNumber (Int 20))
           20 scenarioRecords eq_refl eq_refl eq_refl
           (decreasing_Acyclic scenarioRecords eq_refl)).
  exists {| id := 20; parent := 9 |}. split; [|reflexivity].
  right; right; left; reflexivity.
Defined.

(* ================================================================== *)
(** ** Further properties of the classic adapter *)

Section ClassicAdapter.

(** The level of an option whose class matches is one more than the number
    its digits denote. *)
Lemma getLevelFromOption_matched n c digits :
  className n = Some c ->
  matchLevel c = Some digits ->
  getLevelFromOption n = Int (digitsValue digits 0 + 1) /\
  0 <= digitsValue digits 0.
Proof.
  intros Hc Hm. unfold getLevelFromOption. rewrite Hc.
  destruct c as [|a r]; [discriminate|]. rewrite Hm.
  destruct (matchLevel_digits _ _ Hm) as (a' & r' & -> & Hd).
  rewrite parseInt_digits by assumption. split; [reflexivity|].
  apply digitsValue_nonneg; [assumption|lia].
Qed.

(** Nodes whose level differs from the level looked for are passed over. *)
Lemma ancestorsLoop_skip skipped : forall rest level ancestors,
  Forall (fun n => strict_eq (getLevelFromOption n) level = false) skipped ->
  ancestorsLoop (skipped ++ rest) level ancestors =
  ancestorsLoop rest level ancestors.
Proof.
  induction skipped as [|n skipped IH]; intros rest level ancestors Hskip;
    [reflexivity|].
  inversion Hskip as [|? ? Hn Hrest]; subst. cbv beta in Hn.
  change ((n :: skipped) ++ rest) with (n :: (skipped ++ rest)).
  cbn [ancestorsLoop].
  destruct (gt level (Int 0)) eqn:Hlevel.
  - rewrite Hn. cbn [negb]. apply IH. assumption.
  - destruct rest; cbn [ancestorsLoop]; [|rewrite Hlevel]; reflexivity.
Qed.

(** Text nodes take no part in the walk. *)
Lemma ancestorsLoop_filter chain : forall level ancestors,
  ancestorsLoop (filter isOptionElement chain) level ancestors =
  ancestorsLoop chain level ancestors.
Proof.
  induction chain as [|n chain IH]; intros level ancestors; [reflexivity|].
  destruct n as [v c|data]; cbn [filter isOptionElement].
  - cbn [ancestorsLoop]. rewrite !IH. reflexivity.
  - rewrite IH. cbn [ancestorsLoop].
    destruct (gt level (Int 0)) eqn:Hlevel.
    + change (getLevelFromOption (TextNode data)) with (Int 0).
      destruct level as [|l]; [discriminate|].
      cbn in Hlevel. apply Z.gtb_lt in Hlevel.
      cbn [strict_eq]. replace (0 =? l) with false by (symmetry; apply Z.eqb_neq; lia).
      reflexivity.
    + destruct chain; cbn [ancestorsLoop]; [|rewrite Hlevel]; reflexivity.
Qed.

(** Indexing the options is blind to text nodes, which only lengthen the
    chain of previous siblings. *)
Lemma optionAt_filter children : forall seen i,
  optionAt (filter isOptionElement children) (filter isOptionElement seen) i =
  match optionAt children seen i with
  | Some o =>
      Some {| self := self o;
              previousSiblings := filter isOptionElement (previousSiblings o) |}
  | None => None
  end.
Proof.
  induction children as [|n children IH]; intros seen i; [reflexivity|].
  cbn [filter optionAt].
  destruct (isOptionElement n) eqn:Hn.
  - cbn [optionAt]. rewrite Hn. destruct i as [|i]; [reflexivity|].
    rewrite <- IH. cbn [filter]. rewrite Hn. reflexivity.
  - rewrite <- IH. cbn [filter]. rewrite Hn. reflexivity.
Qed.

Lemma optionAt_isOptionElement children : forall seen i o,
  optionAt children seen i = Some o -> isOptionElement (self o) = true.
Proof.
  induction children as [|n children IH]; intros seen i o H; [discriminate|].
  cbn [optionAt] in H. destruct (isOptionElement n) eqn:Hn.
  - destruct i as [|i]; [injection H as <-; exact Hn|eapply IH; eassumption].
  - eapply IH; eassumption.
Qed.

End ClassicAdapter.

Lemma select_without_text_nodes (children : list Node) (index : Z) :
  getParentIdAncestorsAndLevelFromSelect
    {| childNodes := filter isOptionElement children; selectedIndex := index |} =
  getParentIdAncestorsAndLevelFromSelect
    {| childNodes := children; selectedIndex := index |}.
Proof.
  unfold getParentIdAncestorsAndLevelFromSelect, selectedOption.
  cbn [childNodes selectedIndex].
  destruct (index <? 0); [reflexivity|].
  pose proof (optionAt_filter children [] (Z.to_nat index)) as Hfilter.
  cbn [filter] in Hfilter. rewrite Hfilter.
  destruct (optionAt children [] (Z.to_nat index)) as [o|] eqn:Ho;
    [|reflexivity].
  apply optionAt_isOptionElement in Ho.
  unfold getAncestorsFromOption. cbn [self previousSiblings].
  f_equal. f_equal.
  rewrite <- (ancestorsLoop_filter (self o :: previousSiblings o)).
  cbn [filter]. rewrite Ho. reflexivity.
Qed.

(** X1: the text nodes among the children of the [select] have no
    influence: on two lists of children with the same [option] elements in
    the same order the adapter returns the same, and so it does on the
    [option] elements alone. *)
Theorem text_nodes_do_not_matter (children children' : list Node) (index : Z) :
  filter isOptionElement children = filter isOptionElement children' ->
  getParentIdAncestorsAndLevelFromSelect
    {| childNodes := children; selectedIndex := index |} =
  getParentIdAncestorsAndLevelFromSelect
    {| childNodes := children'; selectedIndex := index |} /\
  getParentIdAncestorsAndLevelFromSelect
    {| childNodes := children; selectedIndex := index |} =
  getParentIdAncestorsAndLevelFromSelect
    {| childNodes := filter isOptionElement children; selectedIndex := index |}.
Proof.
  intros Hsame. split.
  - rewrite <- (select_without_text_nodes children).
    rewrite <- (select_without_text_nodes children').
    rewrite Hsame. reflexivity.
  - symmetry. apply select_without_text_nodes.
Qed.

Lemma text_nodes_do_not_matter_witness :
  getParentIdAncestorsAndLevelFromSelect dropdownSelect =
  getParentIdAncestorsAndLevelFromSelect
    {| childNodes :=
         [ OptionElement "" ""; OptionElement "1" "level-0";
           OptionElement "2" "level-1"; OptionElement "3" "level-1" ];
       selectedIndex := 3 |}.
Proof.
  exact (proj1 (text_nodes_do_not_matter (childNodes dropdownSelect)
                  [ OptionElement "" ""; OptionElement "1" "level-0";
                    OptionElement "2" "level-1"; OptionElement "3" "level-1" ]
                  3 eq_refl)).
Defined.

(** X2: in every state the classic adapter returns, [post_level] is an
    integer not below 1 and [post_ancestors] has at most [post_level - 1]
    entries. *)
Theorem select_level_bounds_ancestors (node : Select) (o : Linked) :
  selectedOption node = Some o ->
  exists st l,
    getParentIdAncestorsAndLevelFromSelect node = Returns st /\
    post_level st = Int l /\
    1 <= l /\
    Z.of_nat (List.length (post_ancestors st)) + 1 <= l.
Proof.
  intros Hsel. unfold getParentIdAncestorsAndLevelFromSelect. rewrite Hsel.
  destruct (getLevelFromOption_Int (self o)) as (l & Hl & Hpos).
  eexists _, (l + 1). split; [reflexivity|].
  cbn [post_level post_ancestors]. rewrite Hl. split; [reflexivity|].
  split; [lia|].
  unfold getAncestorsFromOption.
  rewrite ancestorsLoop_matchedSteps, app_nil_r, length_rev, length_map, Hl.
  pose proof (filter_length_le validId
    (matchedSteps (self o :: previousSiblings o) (Int l))).
  pose proof (matchedSteps_length (self o :: previousSiblings o) l).
  lia.
Qed.

Lemma select_level_bounds_ancestors_witness :
  exists st l,
    getParentIdAncestorsAndLevelFromSelect dropdownSelect = Returns st /\
    post_level st = Int l /\
    1 <= l /\
    Z.of_nat (List.length (post_ancestors st)) + 1 <= l.
Proof.
  exact (select_level_bounds_ancestors dropdownSelect
           {| self := OptionElement "3" "level-1";
              previousSiblings :=
                [ TextNode " "; OptionElement "2" "level-1"; TextNode " ";
                  OptionElement "1" "level-0"; TextNode " ";
                  OptionElement "" "" ] |}
           eq_refl).
Defined.

(** X3: when the selected option carries an indentation class and its value
    parses to a positive number, the ancestors returned by the classic
    adapter are not empty and end with the returned parent id. *)
Theorem select_ancestors_end_with_parent (node : Select) (o : Linked) :
  selectedOption node = Some o ->
  ~ noLevelClass (self o) ->
  validId (self o) = true ->
  exists st front,
    getParentIdAncestorsAndLevelFromSelect node = Returns st /\
    post_ancestors st = front ++ [post_parent_id st].
Proof.
  intros Hsel Hclass Hid.
  unfold getParentIdAncestorsAndLevelFromSelect. rewrite Hsel.
  unfold noLevelClass in Hclass.
  destruct (className (self o)) as [c|] eqn:Hc; [|exfalso; apply Hclass; exact I].
  destruct (matchLevel c) as [digits|] eqn:Hm; [|contradiction].
  destruct (getLevelFromOption_matched _ _ _ Hc Hm) as [Hlevel Hpos].
  unfold validId in Hid.
  eexists _, _. split; [reflexivity|]. cbn [post_ancestors post_parent_id].
  unfold getAncestorsFromOption, getParentIdFromOption.
  cbn [ancestorsLoop]. rewrite Hlevel. cbn [gt strict_eq].
  replace (digitsValue digits 0 + 1 >? 0) with true
    by (symmetry; apply Z.gtb_lt; lia).
  rewrite Z.eqb_refl. cbn [negb]. rewrite Hid.
  rewrite ancestorsLoop_matchedSteps.
  destruct (parseInt (value (self o))); [discriminate|]. reflexivity.
Qed.

Lemma select_ancestors_end_with_parent_witness :
  exists st front,
    getParentIdAncestorsAndLevelFromSelect dropdownSelect = Returns st /\
    post_ancestors st = front ++ [post_parent_id st].
Proof.
  apply (select_ancestors_end_with_parent dropdownSelect
           {| self := OptionElement "3" "level-1";
              previousSiblings :=
                [ TextNode " "; OptionElement "2" "level-1"; TextNode " ";
                  OptionElement "1" "level-0"; TextNode " ";
                  OptionElement "" "" ] |}
           eq_refl).
  - intros H. vm_compute in H. discriminate.
  - reflexivity.
Defined.

(* ================================================================== *)
(** ** Further properties of the block-editor adapter *)

Section ParentChains.

Variable posts : list Post.

Lemma findById_strict parentId post :
  findById posts parentId = Some post -> parentId = Int (id post).
Proof.
  unfold findById. intros H. apply find_some in H as [_ Heq].
  destruct parentId as [|x]; [discriminate|].
  cbn in Heq. apply Z.eqb_eq in Heq. congruence.
Qed.

Lemma findById_absent parentId :
  (forall post, In post posts -> Int (id post) <> parentId) ->
  findById posts parentId = None.
Proof.
  intros Habsent. destruct (findById posts parentId) as [post|] eqn:E;
    [|reflexivity].
  exfalso. pose proof (findById_strict _ _ E) as Hid.
  unfold findById in E. apply find_some in E as [Hin _].
  apply (Habsent post Hin). congruence.
Qed.

Lemma getAncestors_follow_link fuel x y ancestors :
  parentLink posts x y ->
  getAncestorsFromPostsList (S fuel) (Int x) posts ancestors =
  getAncestorsFromPostsList fuel (Int y) posts (Int x :: ancestors).
Proof.
  intros (post & Hfind & Hy & Hnz).
  cbn [getAncestorsFromPostsList]. rewrite Hfind.
  pose proof (findById_strict _ _ Hfind) as Hid. injection Hid as Hid.
  rewrite <- Hid, Hy. cbn [truthy].
  apply Z.eqb_neq in Hnz. rewrite Hnz. reflexivity.
Qed.

(** On a cycle the recursion goes round for ever. *)
Lemma getAncestors_on_cycle fuel : forall x ancestors,
  clos_trans Z (parentLink posts) x x ->
  getAncestorsFromPostsList fuel (Int x) posts ancestors = None.
Proof.
  induction fuel as [|fuel IH]; intros x ancestors Hcycle; [reflexivity|].
  assert (Hstep : exists y, parentLink posts x y /\
                            clos_refl_trans Z (parentLink posts) y x).
  { apply clos_trans_t1n in Hcycle.
    inversion Hcycle as [y Hxy|y z Hxy Hrest]; subst.
    - exists x. split; [assumption|apply rt_refl].
    - exists y. split; [assumption|].
      apply clos_t_clos_rt, clos_t1n_trans. assumption. }
  destruct Hstep as (y & Hxy & Hyx).
  rewrite (getAncestors_follow_link _ _ _ _ Hxy). apply IH.
  eapply clos_rt_t; [eassumption|apply t_step; assumption].
Qed.

(** So does it from any id that leads to a cycle. *)
Lemma getAncestors_reaches_cycle p :
  reachesCycle posts p ->
  forall fuel ancestors,
    getAncestorsFromPostsList fuel (Int p) posts ancestors = None.
Proof.
  intros (x & Hreach & Hcycle). apply clos_rt_rt1n in Hreach.
  induction Hreach as [x|p y x Hpy _ IH]; intros fuel ancestors.
  - apply getAncestors_on_cycle. assumption.
  - destruct fuel as [|fuel]; [reflexivity|].
    rewrite (getAncestors_follow_link _ _ _ _ Hpy). apply IH. assumption.
Qed.

(** Termination needs no more than the absence of a cycle on the way up
    from the id the recursion starts at. *)
Lemma getAncestors_returns_visited start fuel :
  ~ reachesCycle posts start ->
  forall visited x ancestors,
    clos_refl_trans Z (parentLink posts) start x ->
    NoDup visited ->
    (forall v, In v visited ->
       clos_refl_trans Z (parentLink posts) start v /\
       clos_trans Z (parentLink posts) v x) ->
    incl visited (map id posts) ->
    (List.length posts < fuel + List.length visited)%nat ->
    exists result,
      getAncestorsFromPostsList fuel (Int x) posts ancestors = Some result.
Proof.
  intros Hfree.
  induction fuel as [|fuel IH];
    intros visited x ancestors Hstart Hnodup Hreach Hincl Hlen.
  - exfalso. pose proof (NoDup_incl_length Hnodup Hincl) as Hle.
    rewrite length_map in Hle. lia.
  - destruct (findById posts (Int x)) as [post|] eqn:Hfind;
      [|cbn [getAncestorsFromPostsList]; rewrite Hfind; eexists; reflexivity].
    destruct (Z.eq_dec (parent post) 0) as [Hroot|Hnz].
    { cbn [getAncestorsFromPostsList]. rewrite Hfind, Hroot.
      eexists; reflexivity. }
    assert (Hlink : parentLink posts x (parent post)).
    { exists post. repeat split; assumption. }
    rewrite (getAncestors_follow_link _ _ _ _ Hlink).
    pose proof (findById_Some _ _ _ Hfind) as [Hin Hid].
    apply (IH (x :: visited)).
    + eapply rt_trans; [eassumption|apply rt_step; assumption].
    + constructor; [|assumption].
      intros Hx. apply Hfree. exists x. split; [assumption|].
      apply Hreach. assumption.
    + intros v [<-|Hv].
      * split; [assumption|apply t_step; assumption].
      * destruct (Hreach v Hv) as [Hsv Hvx]. split; [assumption|].
        eapply t_trans; [eassumption|apply t_step; assumption].
    + intros v [<-|Hv]; [|apply Hincl; assumption].
      rewrite <- Hid. apply in_map. assumption.
    + cbn [List.length]. lia.
Qed.

Lemma getAncestors_chain fuel : forall parentId ancestors result,
  getAncestorsFromPostsList fuel parentId posts ancestors = Some result ->
  chainInvariant posts ancestors parentId ->
  ParentChain posts result /\
  (forall top rest, result = top :: rest -> chainTop posts top).
Proof.
  induction fuel as [|fuel IH];
    intros parentId ancestors result H [Hchain Hhead]; [discriminate|].
  cbn [getAncestorsFromPostsList] in H.
  destruct (findById posts parentId) as [post|] eqn:Hfind.
  - pose proof (findById_strict _ _ Hfind) as Hid.
    assert (Hpushed : ParentChain posts (Int (id post) :: ancestors)).
    { cbn [ParentChain]. destruct ancestors as [|child rest]; [exact I|].
      split; [rewrite <- Hid|]; assumption. }
    cbn [truthy] in H. destruct (parent post =? 0) eqn:Hroot; cbn [negb] in H.
    + injection H as <-. split; [assumption|].
      intros top rest Heq. injection Heq as <- _.
      exists post. rewrite <- Hid. split; [assumption|].
      left. apply Z.eqb_eq. assumption.
    + apply Z.eqb_neq in Hroot. apply IH in H; [assumption|].
      split; [assumption|]. exists post. rewrite <- Hid. tauto.
  - injection H as <-. split; [assumption|].
    intros top rest ->. destruct Hhead as (post & Hpost & Hnz & ->).
    exists post. split; [assumption|]. right. assumption.
Qed.

Lemma getAncestors_found fuel parentId post ancestors result :
  findById posts parentId = Some post ->
  getAncestorsFromPostsList fuel parentId posts ancestors = Some result ->
  exists front, result = front ++ parentId :: ancestors.
Proof.
  intros Hfind H. destruct fuel as [|fuel]; [discriminate|].
  pose proof (findById_strict _ _ Hfind) as Hid.
  cbn [getAncestorsFromPostsList] in H. rewrite Hfind, <- Hid in H.
  destruct (truthy (Int (parent post))).
  - apply getAncestors_extends in H. assumption.
  - injection H as <-. exists []. reflexivity.
Qed.

Lemma getAncestors_distinct fuel : forall parentId ancestors result,
  getAncestorsFromPostsList fuel parentId posts ancestors = Some result ->
  visitedInvariant posts ancestors parentId ->
  NoDup result /\
  incl result (map (fun post => Int (id post)) posts).
Proof.
  induction fuel as [|fuel IH];
    intros parentId ancestors result H (Hnodup & Hincl & Hbelow);
    [discriminate|].
  pose proof H as Hcall.
  cbn [getAncestorsFromPostsList] in H.
  destruct (findById posts parentId) as [post|] eqn:Hfind;
    [|injection H as <-; split; assumption].
  pose proof (findById_strict _ _ Hfind) as Hid. subst parentId.
  pose proof (findById_Some _ _ _ Hfind) as [Hin _].
  assert (Hfresh : ~ In (Int (id post)) ancestors).
  { intros Hold. destruct (Hbelow _ Hold) as (x & y & Hx & Hy & Hcycle).
    injection Hx as <-. injection Hy as <-.
    rewrite getAncestors_on_cycle in Hcall by assumption. discriminate. }
  assert (Hnodup' : NoDup (Int (id post) :: ancestors))
    by (constructor; assumption).
  assert (Hincl' : incl (Int (id post) :: ancestors)
                     (map (fun post => Int (id post)) posts)).
  { intros a [<-|Ha]; [|apply Hincl; assumption].
    apply (in_map (fun post => Int (id post))). assumption. }
  cbn [truthy] in H. destruct (parent post =? 0) eqn:Hroot; cbn [negb] in H.
  - injection H as <-. split; assumption.
  - apply Z.eqb_neq in Hroot. apply IH in H; [assumption|].
    assert (Hlink : parentLink posts (id post) (parent post)).
    { exists post. repeat split; assumption. }
    split; [assumption|]. split; [assumption|].
    intros a [<-|Ha].
    + exists (id post), (parent post).
      split; [reflexivity|]. split; [reflexivity|]. apply t_step. assumption.
    + destruct (Hbelow _ Ha) as (x & y & -> & Hy & Hxy). injection Hy as <-.
      exists x, (parent post). split; [reflexivity|]. split; [reflexivity|].
      eapply t_trans; [eassumption|apply t_step; assumption].
Qed.

End ParentChains.

(** Records are looked up by id alone, so with pairwise distinct ids the
    order of the records is immaterial. *)
Lemma findById_Permutation posts posts' parentId :
  Permutation posts posts' ->
  NoDup (map id posts) ->
  findById posts parentId = findById posts' parentId.
Proof.
  intros Hperm Hnodup.
  assert (Hunique : forall a b, In a posts -> In b posts -> id a = id b -> a = b).
  { clear Hperm posts' parentId.
    induction posts as [|post rest IH]; intros a b Ha Hb Hid; [destruct Ha|].
    cbn [map] in Hnodup. inversion Hnodup as [|? ? Hfresh Hrest]; subst.
    destruct Ha as [<-|Ha], Hb as [<-|Hb].
    - reflexivity.
    - exfalso. apply Hfresh. rewrite Hid. apply in_map. assumption.
    - exfalso. apply Hfresh. rewrite <- Hid. apply in_map. assumption.
    - apply IH; assumption. }
  destruct (findById posts parentId) as [post|] eqn:Hfind.
  - pose proof (findById_strict _ _ _ Hfind) as ->.
    apply findById_Some in Hfind as [Hin _].
    destruct (findById_present posts' (id post)) as (found & Hfound & Hid).
    { exists post. split; [|reflexivity].
      eapply Permutation_in; eassumption. }
    rewrite Hfound. f_equal. apply Hunique; [assumption| |congruence].
    apply findById_Some in Hfound as [Hin' _].
    eapply Permutation_in; [apply Permutation_sym|]; eassumption.
  - symmetry. apply findById_absent. intros post Hin Hid.
    unfold findById in Hfind.
    apply Permutation_sym in Hperm.
    pose proof (find_none _ _ Hfind post (Permutation_in _ Hperm Hin)) as Hn.
    cbn beta in Hn. rewrite Hid in Hn.
    destruct parentId as [|x]; [discriminate|].
    cbn in Hn. rewrite Z.eqb_refl in Hn. discriminate.
Qed.

(** [parseInt] gives back the integer that [toString] printed. *)
Lemma parseInt_number z : parseInt (VNumber (Int z)) = Int z.
Proof.
  destruct z as [|p|p].
  - reflexivity.
  - pose proof (parseInt_decimal (N.pos p)) as H.
    unfold parseInt, toString, decimal in *. cbn [Z.to_int N.to_uint] in *.
    unfold NilZero.string_of_int, NilZero.string_of_uint.
    destruct (Pos.to_uint p) eqn:E; try exact H.
    exfalso. apply (DecimalPos.Unsigned.to_uint_nonnil p). exact E.
  - pose proof (parseInt_minus_decimal (N.pos p)) as H.
    unfold parseInt, toString, decimal in *. cbn [Z.to_int N.to_uint] in *.
    unfold NilZero.string_of_int, NilZero.string_of_uint.
    destruct (Pos.to_uint p) eqn:E; try exact H.
    exfalso. apply (DecimalPos.Unsigned.to_uint_nonnil p). exact E.
Qed.

(** X4: whatever the recursion returns is a parent chain: every entry is
    the parent that the records give to the next entry, the first entry is
    a record without parent or with a parent that has no record, and the
    last entry is the id the recursion started from; nothing is returned
    exactly when that id has no record. *)
Theorem record_ancestors_form_parent_chain (posts : list Post) (fuel : nat)
    (parentId : number) (result : list number) :
  getAncestorsFromPostsList fuel parentId posts [] = Some result ->
  ParentChain posts result /\
  (forall top rest, result = top :: rest -> chainTop posts top) /\
  (findById posts parentId = None -> result = []) /\
  (findById posts parentId <> None ->
   exists front, result = front ++ [parentId]).
Proof.
  intros H.
  destruct (getAncestors_chain posts fuel parentId [] result H) as [Hchain Htop];
    [split; exact I|].
  split; [assumption|]. split; [assumption|]. split.
  - intros Hnone. destruct fuel as [|fuel]; [discriminate|].
    cbn [getAncestorsFromPostsList] in H. rewrite Hnone in H.
    injection H as <-. reflexivity.
  - intros Hsome. destruct (findById posts parentId) as [post|] eqn:Hfind;
      [|contradiction].
    eapply getAncestors_found; eassumption.
Qed.

Lemma record_ancestors_form_parent_chain_witness :
  ParentChain scenarioRecords [Int 5; Int 9; Int 20] /\
  chainTop scenarioRecords (Int 5).
Proof.
  destruct (record_ancestors_form_parent_chain scenarioRecords 3 (Int 20)
              [Int 5; Int 9; Int 20] eq_refl) as (Hchain & Htop & _).
  split; [exact Hchain|]. exact (Htop _ _ eq_refl).
Defined.

(** X5: the recursion returns exactly when no parent cycle can be reached
    from the id it starts from: without such a cycle it returns within one
    more nested call than there are records, and with one it never returns,
    however deep it may go. *)
Theorem record_recursion_returns_iff_no_cycle (posts : list Post) (p : Z)
    (ancestors : list number) :
  (~ reachesCycle posts p ->
   exists result,
     getAncestorsFromPostsList (S (List.length posts)) (Int p) posts ancestors
     = Some result) /\
  (reachesCycle posts p ->
   forall fuel,
     getAncestorsFromPostsList fuel (Int p) posts ancestors = None).
Proof.
  split.
  - intros Hfree.
    apply (getAncestors_returns_visited posts p _ Hfree []).
    + apply rt_refl.
    + constructor.
    + intros v [].
    + intros v [].
    + cbn [List.length]. lia.
  - intros Hcycle fuel. apply getAncestors_reaches_cycle. assumption.
Qed.

Lemma record_recursion_returns_iff_no_cycle_witness :
  (exists result,
      getAncestorsFromPostsList 4 (Int 20) scenarioRecords [] = Some result) /\
  getAncestorsFromPostsList 7 (Int 1) selfParent [] = None.
Proof.
  split.
  - apply (proj1 (record_recursion_returns_iff_no_cycle scenarioRecords 20 [])).
    intros (x & _ & Hcycle).
    exact (decreasing_Acyclic scenarioRecords eq_refl x Hcycle).
  - apply (proj2 (record_recursion_returns_iff_no_cycle selfParent 1 [])).
    exists 1. split; [apply rt_refl|]. apply t_step.
    exists {| id := 1; parent := 1 |}.
    split; [reflexivity|]. split; [reflexivity|]. discriminate.
Defined.

(** X6: the ancestors the recursion returns are pairwise distinct ids of
    records, so there are no more of them than there are records. *)
Theorem record_ancestors_distinct (posts : list Post) (fuel : nat)
    (parentId : number) (result : list number) :
  getAncestorsFromPostsList fuel parentId posts [] = Some result ->
  NoDup result /\
  incl result (map (fun post => Int (id post)) posts) /\
  (List.length result <= List.length posts)%nat.
Proof.
  intros H.
  destruct (getAncestors_distinct posts fuel parentId [] result H)
    as [Hnodup Hincl].
  { split; [constructor|]. split; [intros a []|intros a []]. }
  split; [assumption|]. split; [assumption|].
  pose proof (NoDup_incl_length Hnodup Hincl) as Hle.
  rewrite length_map in Hle. assumption.
Qed.

Lemma record_ancestors_distinct_witness :
  NoDup [Int 5; Int 9; Int 20] /\
  incl [Int 5; Int 9; Int 20]
    (map (fun post => Int (id post)) scenarioRecords) /\
  (3 <= 3)%nat.
Proof.
  exact (record_ancestors_distinct scenarioRecords 3 (Int 20)
           [Int 5; Int 9; Int 20] eq_refl).
Defined.

(** X7: with pairwise distinct record ids, the order in which the store
    delivers the records does not change what the recursion returns. *)
Theorem record_order_is_irrelevant (posts posts' : list Post) :
  Permutation posts posts' ->
  NoDup (map id posts) ->
  forall fuel parentId ancestors,
    getAncestorsFromPostsList fuel parentId posts ancestors =
    getAncestorsFromPostsList fuel parentId posts' ancestors.
Proof.
  intros Hperm Hnodup.
  induction fuel as [|fuel IH]; intros parentId ancestors; [reflexivity|].
  cbn [getAncestorsFromPostsList].
  rewrite <- (findById_Permutation posts posts' parentId Hperm Hnodup).
  destruct (findById posts parentId) as [post|]; [|reflexivity].
  rewrite IH. reflexivity.
Qed.

Lemma record_order_is_irrelevant_witness :
  getAncestorsFromPostsList 3 (Int 20) scenarioRecords [] =
  getAncestorsFromPostsList 3 (Int 20) (List.rev scenarioRecords) [].
Proof.
  apply (record_order_is_irrelevant scenarioRecords (List.rev scenarioRecords)).
  - apply Permutation_rev.
  - cbn. repeat constructor; cbn; intuition discriminate.
Defined.

(** X8: past the validity gate, when no record carries the parent id
    (also when the store has no records yet) the callback emits no
    ancestors and level 1, and keeps the parent id. *)
Theorem missing_record_gives_top_level
    (getPostType : jsval -> option PostType)
    (getEntityRecords : jsval -> jsval -> option (list Post))
    (postId postTypeSlug parentId : jsval) (p : Z) :
  parseInt parentId = Int p ->
  isHierarchical getPostType postTypeSlug = true ->
  (forall post,
      In post (orEmpty (getEntityRecords postTypeSlug postId)) ->
      id post <> p) ->
  forall fuel,
    gutenbergMap getPostType getEntityRecords (S fuel)
      postId postTypeSlug parentId =
    Some {| post_ancestors := [];
            post_parent_id := Int p;
            post_level := Int 1 |}.
Proof.
  intros Hparse Hhier Habsent fuel.
  rewrite gutenbergMap_past_gate by (rewrite ?Hparse; easy).
  rewrite Hparse. cbn [getAncestorsFromPostsList].
  rewrite findById_absent; [reflexivity|].
  intros post Hin Hid. apply (Habsent post Hin). congruence.
Qed.

Lemma missing_record_gives_top_level_witness :
  gutenbergMap hierarchicalType (recordsStore scenarioRecords) 1
    (VNumber (Int 21)) (VString "page") (VNumber (Int 0)) =
  Some INITIAL_STATE.
Proof.
  apply (missing_record_gives_top_level hierarchicalType
           (recordsStore scenarioRecords)
           (VNumber (Int 21)) (VString "page") (VNumber (Int 0)) 0
           eq_refl eq_refl).
  intros post Hin. cbn in Hin.
  destruct Hin as [<-|[<-|[<-|[]]]]; discriminate.
Defined.

(** X9: a numeric parent attribute goes through the callback unchanged:
    for a hierarchical post type and an integer attribute in the
    safe-integer range, every emitted state carries that integer as
    [post_parent_id], after its passage through [toString] and
    [parseInt]. *)
Theorem numeric_parent_is_kept
    (getPostType : jsval -> option PostType)
    (getEntityRecords : jsval -> jsval -> option (list Post))
    (postId postTypeSlug : jsval) (z : Z) (fuel : nat) (st : PositionState) :
  Z.abs z < 2 ^ 53 ->
  isHierarchical getPostType postTypeSlug = true ->
  gutenbergMap getPostType getEntityRecords fuel postId postTypeSlug
    (VNumber (Int z)) = Some st ->
  post_parent_id st = Int z.
Proof.
  intros _ Hhier H.
  rewrite gutenbergMap_past_gate in H
    by (rewrite ?parseInt_number; easy).
  rewrite parseInt_number in H.
  destruct (getAncestorsFromPostsList _ _ _ _); [|discriminate].
  injection H as <-. reflexivity.
Qed.

Lemma numeric_parent_is_kept_witness :
  post_parent_id
    {| post_ancestors := [Int 5; Int 9; Int 20];
       post_parent_id := Int 20;
       post_level := Int 4 |} = Int 20.
Proof.
  exact (numeric_parent_is_kept hierarchicalType (recordsStore scenarioRecords)
           (VNumber (Int 21)) (VString "page") 20 3 _ eq_refl eq_refl eq_refl).
Defined.

(* ================================================================== *)
(** ** Both adapters on a page hierarchy *)

Section Hierarchy.

Lemma renderOptions_length pages : forall depth,
  List.length (renderOptions depth pages) = countPages pages.
Proof.
  induction pages as [|i c IHc s IHs]; intros depth; [reflexivity|].
  cbn [renderOptions countPages List.length].
  rewrite length_app, IHc, IHs. reflexivity.
Qed.

Lemma renderOptions_options pages : forall depth,
  Forall (fun n => isOptionElement n = true) (renderOptions depth pages).
Proof.
  induction pages as [|i c IHc s IHs]; intros depth; [constructor|].
  cbn [renderOptions]. constructor; [reflexivity|].
  apply Forall_app. split; [apply IHc|apply IHs].
Qed.

(** The options of a forest rendered at [depth] have levels above [depth]. *)
Lemma renderOptions_levels pages : forall depth,
  Forall (fun n => exists l, getLevelFromOption n = Int l /\ Z.of_N depth < l)
    (renderOptions depth pages).
Proof.
  induction pages as [|i c IHc s IHs]; intros depth; [constructor|].
  cbn [renderOptions]. constructor.
  - exists (Z.of_N depth + 1).
    rewrite getLevelFromOption_levelClass by reflexivity. split; [reflexivity|lia].
  - apply Forall_app. split; [|apply IHs].
    eapply Forall_impl; [|apply IHc].
    intros n (l & Hl & Hlt). exists l. split; [assumption|lia].
Qed.

Lemma pathTo_nonempty pages : forall k path,
  pathTo pages k = Some path -> path <> [].
Proof.
  induction pages as [|i c IHc s IHs]; intros k path H; [discriminate|].
  cbn [pathTo] in H. destruct k as [|k]; [injection H as <-; discriminate|].
  destruct (Nat.ltb k (countPages c)).
  - destruct (pathTo c k); [injection H as <-|]; discriminate.
  - eapply IHs; eassumption.
Qed.

Lemma pathTo_length pages : forall k path,
  pathTo pages k = Some path -> (List.length path <= countPages pages)%nat.
Proof.
  induction pages as [|i c IHc s IHs]; intros k path H; [discriminate|].
  cbn [pathTo] in H. cbn [countPages]. destruct k as [|k].
  - injection H as <-. cbn. lia.
  - destruct (Nat.ltb k (countPages c)).
    + destruct (pathTo c k) as [p|] eqn:E; [|discriminate].
      injection H as <-. apply IHc in E. cbn [List.length]. lia.
    + apply IHs in H. lia.
Qed.

(** The walk through the options of a forest: started at the [k]-th option
    with that option's level, it records the path to it and leaves the
    forest one level above its roots. *)
Lemma ancestorsLoop_renderOptions pages : forall depth k path outer ancestors,
  pathTo pages k = Some path ->
  exists x,
    nth_error (renderOptions depth pages) k = Some x /\
    getLevelFromOption x = Int (Z.of_N depth + Z.of_nat (List.length path)) /\
    value x = VString (decimal (N.pos (last path 1%positive))) /\
    ancestorsLoop
      (x :: List.rev (firstn k (renderOptions depth pages)) ++ outer)
      (Int (Z.of_N depth + Z.of_nat (List.length path))) ancestors =
    ancestorsLoop outer (Int (Z.of_N depth)) (map pageNumber path ++ ancestors).
Proof.
  induction pages as [|i c IHc s IHs];
    intros depth k path outer ancestors H; [discriminate|].
  cbn [pathTo] in H. cbn [renderOptions].
  set (here := OptionElement (decimal (N.pos i)) (levelClass depth "")).
  assert (Hhere : getLevelFromOption here = Int (Z.of_N depth + 1))
    by (apply getLevelFromOption_levelClass; reflexivity).
  assert (Hmatch : forall rest acc,
             ancestorsLoop (here :: rest) (Int (Z.of_N depth + 1)) acc =
             ancestorsLoop rest (Int (Z.of_N depth)) (pageNumber i :: acc)).
  { intros rest acc. cbn [ancestorsLoop]. rewrite Hhere. cbn [gt strict_eq].
    replace (Z.of_N depth + 1 >? 0) with true
      by (symmetry; apply Z.gtb_lt; lia).
    rewrite Z.eqb_refl. cbn [negb value here].
    rewrite parseInt_decimal. cbn [gt sub Z.of_N Z.gtb Z.compare].
    f_equal. f_equal. lia. }
  destruct k as [|k].
  - injection H as <-. exists here. cbn [nth_error firstn List.rev app last List.length].
    split; [reflexivity|]. split; [exact Hhere|]. split; [reflexivity|].
    apply Hmatch.
  - destruct (Nat.ltb k (countPages c)) eqn:Hk.
    + apply Nat.ltb_lt in Hk.
      destruct (pathTo c k) as [p|] eqn:Hp; [|discriminate].
      injection H as <-.
      destruct (IHc (depth + 1)%N k p (here :: outer) ancestors Hp)
        as (x & Hnth & Hlevel & Hvalue & Hwalk).
      exists x. cbn [nth_error firstn].
      rewrite nth_error_app1 by (rewrite renderOptions_length; assumption).
      rewrite firstn_app, renderOptions_length.
      replace (k - countPages c)%nat with O by lia.
      cbn [firstn]. rewrite app_nil_r.
      cbn [List.rev]. rewrite <- app_assoc. cbn [app].
      pose proof (pathTo_nonempty _ _ _ Hp) as Hne.
      replace (Z.of_N depth + Z.of_nat (List.length (i :: p)))
        with (Z.of_N (depth + 1) + Z.of_nat (List.length p))
        by (cbn [List.length]; lia).
      split; [assumption|]. split; [assumption|]. split.
      * destruct p as [|j p]; [contradiction|exact Hvalue].
      * change ([here] ++ outer) with (here :: outer).
        rewrite Hwalk.
        replace (Z.of_N (depth + 1)) with (Z.of_N depth + 1) by lia.
        rewrite Hmatch. reflexivity.
    + apply Nat.ltb_ge in Hk.
      destruct (IHs depth (k - countPages c)%nat path
                  (List.rev (renderOptions (depth + 1) c) ++ here :: outer)
                  ancestors H)
        as (x & Hnth & Hlevel & Hvalue & Hwalk).
      exists x. cbn [nth_error firstn].
      rewrite nth_error_app2 by (rewrite renderOptions_length; assumption).
      rewrite firstn_app, !renderOptions_length.
      rewrite (firstn_all2 (n := k))
        by (rewrite renderOptions_length; assumption).
      split; [assumption|]. split; [assumption|]. split; [assumption|].
      cbn [List.rev]. rewrite rev_app_distr, <- !app_assoc.
      change ([here] ++ outer) with (here :: outer).
      rewrite Hwalk.
      change (here :: outer) with ([here] ++ outer).
      rewrite app_assoc. apply ancestorsLoop_skip.
      apply Forall_app. split.
      * apply Forall_rev.
        eapply Forall_impl; [|apply (renderOptions_levels c (depth + 1))].
        intros n (l & -> & Hlt). cbn [strict_eq]. apply Z.eqb_neq. lia.
      * constructor; [|constructor]. rewrite Hhere. cbn [strict_eq].
        apply Z.eqb_neq. lia.
Qed.

Lemma optionAt_options children : forall seen i,
  Forall (fun n => isOptionElement n = true) children ->
  optionAt children seen i =
  match nth_error children i with
  | Some n =>
      Some {| self := n;
              previousSiblings := List.rev (firstn i children) ++ seen |}
  | None => None
  end.
Proof.
  induction children as [|n children IH]; intros seen i Hall;
    [destruct i; reflexivity|].
  inversion Hall as [|? ? Hn Hrest]; subst.
  cbn [optionAt]. rewrite Hn. destruct i as [|i]; [reflexivity|].
  rewrite IH by assumption. cbn [nth_error firstn List.rev].
  destruct (nth_error children i); [|reflexivity].
  rewrite <- app_assoc. reflexivity.
Qed.

(** The classic adapter on the dropdown of a forest: the option without
    value comes first, the options of the pages follow. *)
Lemma classic_adapter_on_pages pages k path :
  pathTo pages k = Some path ->
  getParentIdAncestorsAndLevelFromSelect
    {| childNodes := OptionElement "" "" :: renderOptions 0 pages;
       selectedIndex := Z.of_nat k + 1 |} =
  Returns (stateOfPath path).
Proof.
  intros Hpath.
  unfold getParentIdAncestorsAndLevelFromSelect, selectedOption.
  cbn [childNodes selectedIndex].
  replace (Z.of_nat k + 1 <? 0) with false by (symmetry; apply Z.ltb_ge; lia).
  replace (Z.to_nat (Z.of_nat k + 1)) with (S k) by lia.
  rewrite optionAt_options
    by (constructor; [reflexivity|apply renderOptions_options]).
  cbn [nth_error firstn List.rev].
  destruct (ancestorsLoop_renderOptions pages 0 k path [OptionElement "" ""] []
              Hpath) as (x & Hnth & Hlevel & Hvalue & Hwalk).
  rewrite Hnth. unfold getAncestorsFromOption, getParentIdFromOption.
  cbn [self previousSiblings]. rewrite Hlevel, Hvalue, parseInt_decimal.
  rewrite app_nil_r, Hwalk.
  change (Int (Z.of_N 0)) with (Int 0).
  rewrite ancestorsLoop_level_0, app_nil_r.
  reflexivity.
Qed.

Lemma recordsOf_ids pages : forall parentId,
  map id (recordsOf parentId pages) = map Z.pos (pageIds pages).
Proof.
  induction pages as [|i c IHc s IHs]; intros parentId; [reflexivity|].
  cbn [recordsOf pageIds map]. rewrite !map_app, IHc, IHs. reflexivity.
Qed.

Lemma UpPath_incl records records' top up :
  incl records records' -> UpPath records top up -> UpPath records' top up.
Proof.
  intros Hincl. induction up as [|x rest IH]; [trivial|].
  cbn [UpPath]. intros [Hin Hrest]. split; [apply Hincl; assumption|].
  apply IH. assumption.
Qed.

Lemma UpPath_snoc records top i up :
  UpPath records (Z.pos i) up ->
  In {| id := Z.pos i; parent := top |} records ->
  UpPath records top (up ++ [i]).
Proof.
  intros Hup Hin. induction up as [|x rest IH]; [cbn; tauto|].
  cbn [UpPath app] in Hup |- *. destruct Hup as [Hx Hrest].
  split; [|apply IH; assumption].
  destruct rest; assumption.
Qed.

(** The records of a forest hold the way up from each of its pages. *)
Lemma recordsOf_UpPath pages : forall top k path,
  pathTo pages k = Some path ->
  UpPath (recordsOf top pages) top (List.rev path).
Proof.
  induction pages as [|i c IHc s IHs]; intros top k path H; [discriminate|].
  cbn [pathTo] in H. cbn [recordsOf]. destruct k as [|k].
  - injection H as <-. cbn. tauto.
  - destruct (Nat.ltb k (countPages c)).
    + destruct (pathTo c k) as [p|] eqn:Hp; [|discriminate].
      injection H as <-. cbn [List.rev]. apply UpPath_snoc; [|left; reflexivity].
      eapply UpPath_incl; [|apply (IHc _ _ _ Hp)].
      intros r Hr. right. apply in_or_app. left. assumption.
    + eapply UpPath_incl; [|apply (IHs _ _ _ H)].
      intros r Hr. right. apply in_or_app. right. assumption.
Qed.

Lemma findById_unique posts post :
  NoDup (map id posts) ->
  In post posts ->
  findById posts (Int (id post)) = Some post.
Proof.
  intros Hnodup Hin.
  induction posts as [|first rest IH]; [destruct Hin|].
  cbn [map] in Hnodup. inversion Hnodup as [|? ? Hfresh Hrest]; subst.
  unfold findById. cbn [find strict_eq].
  destruct Hin as [->|Hin]; [rewrite Z.eqb_refl; reflexivity|].
  destruct (id first =? id post) eqn:E.
  - exfalso. apply Z.eqb_eq in E. apply Hfresh. rewrite E.
    apply in_map. assumption.
  - apply IH; assumption.
Qed.

(** Climbing a way up that ends at a root records it, root first. *)
Lemma getAncestors_UpPath posts :
  NoDup (map id posts) ->
  forall rest x ancestors fuel,
    UpPath posts 0 (x :: rest) ->
    getAncestorsFromPostsList (S (List.length rest) + fuel)
      (pageNumber x) posts ancestors =
    Some (map pageNumber (List.rev (x :: rest)) ++ ancestors).
Proof.
  intros Hnodup.
  induction rest as [|y rest IH]; intros x ancestors fuel [Hin Hup];
    pose proof (findById_unique posts _ Hnodup Hin) as Hfind;
    cbn [id] in Hfind.
  - cbn [List.length Nat.add getAncestorsFromPostsList].
    unfold pageNumber at 1. rewrite Hfind. reflexivity.
  - change (S (List.length (y :: rest)) + fuel)%nat
      with (S (S (List.length rest) + fuel)).
    unfold pageNumber at 1.
    rewrite (getAncestors_follow_link posts _ (Z.pos x) (Z.pos y)).
    2:{ eexists. split; [exact Hfind|]. split; [reflexivity|discriminate]. }
    change (Int (Z.pos y)) with (pageNumber y).
    rewrite (IH y _ fuel Hup). f_equal.
    cbn [List.rev]. rewrite !map_app, <- !app_assoc. reflexivity.
Qed.

(** The recursion on the records of a forest, in whatever order the store
    delivers them. *)
Lemma getAncestors_on_pages posts pages k path fuel :
  NoDup (pageIds pages) ->
  Permutation posts (recordsOf 0 pages) ->
  pathTo pages k = Some path ->
  (List.length path <= fuel)%nat ->
  getAncestorsFromPostsList fuel (pageNumber (last path 1%positive)) posts [] =
  Some (map pageNumber path).
Proof.
  intros Hnodup Hperm Hpath Hfuel.
  assert (Hup : UpPath posts 0 (List.rev path)).
  { eapply UpPath_incl; [|apply (recordsOf_UpPath pages 0 k path Hpath)].
    intros r Hr. eapply Permutation_in; [apply Permutation_sym|]; eassumption. }
  pose proof (pathTo_nonempty _ _ _ Hpath) as Hne.
  destruct (List.rev path) as [|x rest] eqn:Hrev.
  { apply (f_equal (@List.rev positive)) in Hrev.
    rewrite rev_involutive in Hrev. contradiction. }
  assert (Hpath' : path = List.rev rest ++ [x]).
  { rewrite <- (rev_involutive path), Hrev. reflexivity. }
  assert (Hids : NoDup (map id posts)).
  { apply (Permutation_NoDup (Permutation_map id (Permutation_sym Hperm))).
    rewrite recordsOf_ids. apply Finite.Injective_map_NoDup; [|assumption].
    intros a b Hab. congruence. }
  subst path. rewrite last_last.
  rewrite length_app, length_rev in Hfuel. cbn [List.length] in Hfuel.
  replace fuel with (S (List.length rest) + (fuel - S (List.length rest)))%nat
    by lia.
  rewrite (getAncestors_UpPath _ Hids rest x [] _ Hup).
  rewrite app_nil_r. reflexivity.
Qed.

(** Every position below the number of pages has a path. *)
Lemma pathTo_defined pages : forall k,
  (k < countPages pages)%nat -> exists path, pathTo pages k = Some path.
Proof.
  induction pages as [|i c IHc s IHs]; intros k Hk; [cbn in Hk; lia|].
  cbn [pathTo countPages] in *. destruct k as [|k]; [eexists; reflexivity|].
  destruct (Nat.ltb k (countPages c)) eqn:E.
  - apply Nat.ltb_lt in E. destruct (IHc k E) as (p & ->).
    eexists; reflexivity.
  - apply Nat.ltb_ge in E. apply IHs. lia.
Qed.

End Hierarchy.

(** X10: on the dropdown of a page forest (a first option without value,
    then one option per page in display order with its id as value and its
    depth in its class, text nodes anywhere in between), with page ids and
    number of pages below 2^53 so that the code parses ids and counts
    levels exactly, selecting the [k]-th page makes the classic adapter
    return the ids on the way from the root to that page as ancestors,
    that page as parent id, and the number of ancestors plus one as
    level. *)
Theorem classic_adapter_follows_hierarchy (children : list Node)
    (pages : Pages) (k : nat) (path : list positive) :
  Forall (fun i => Z.pos i < 2 ^ 53) (pageIds pages) ->
  Z.of_nat (countPages pages) < 2 ^ 53 ->
  filter isOptionElement children =
    OptionElement "" "" :: renderOptions 0 pages ->
  pathTo pages k = Some path ->
  getParentIdAncestorsAndLevelFromSelect
    {| childNodes := children; selectedIndex := Z.of_nat k + 1 |} =
  Returns (stateOfPath path).
Proof.
  intros _ _ Hchildren Hpath.
  rewrite <- select_without_text_nodes, Hchildren.
  apply classic_adapter_on_pages. assumption.
Qed.

Lemma classic_adapter_follows_hierarchy_witness :
  getParentIdAncestorsAndLevelFromSelect
    {| childNodes :=
         [ OptionElement "" ""; TextNode " ";
           OptionElement "1" "level-0"; TextNode " ";
           OptionElement "2" "level-1"; TextNode " ";
           OptionElement "3" "level-1"; TextNode " ";
           OptionElement "4" "level-0" ];
       selectedIndex := 3 |} =
  Returns {| post_ancestors := [Int 1; Int 3];
             post_parent_id := Int 3;
             post_level := Int 3 |}.
Proof.
  apply (classic_adapter_follows_hierarchy
           [ OptionElement "" ""; TextNode " ";
             OptionElement "1" "level-0"; TextNode " ";
             OptionElement "2" "level-1"; TextNode " ";
             OptionElement "3" "level-1"; TextNode " ";
             OptionElement "4" "level-0" ]
           scenarioPages 2 [1%positive; 3%positive]).
  - repeat constructor.
  - reflexivity.
  - reflexivity.
  - reflexivity.
Defined.

(** X11: on the records of a page forest with pairwise distinct ids, in
    any order, and with the id of the [k]-th page as parent attribute, the
    block-editor callback emits the ids on the way from the root to that
    page as ancestors, that page as parent id, and the number of ancestors
    plus one as level, as soon as the recursion may nest as deep as the
    page lies. *)
Theorem record_adapter_follows_hierarchy
    (getPostType : jsval -> option PostType)
    (getEntityRecords : jsval -> jsval -> option (list Post))
    (postId postTypeSlug parentId : jsval)
    (pages : Pages) (k : nat) (path : list positive) (fuel : nat) :
  NoDup (pageIds pages) ->
  Permutation (orEmpty (getEntityRecords postTypeSlug postId))
    (recordsOf 0 pages) ->
  isHierarchical getPostType postTypeSlug = true ->
  pathTo pages k = Some path ->
  parseInt parentId = pageNumber (last path 1%positive) ->
  (List.length path <= fuel)%nat ->
  gutenbergMap getPostType getEntityRecords fuel postId postTypeSlug parentId =
  Some (stateOfPath path).
Proof.
  intros Hnodup Hperm Hhier Hpath Hparse Hfuel.
  rewrite gutenbergMap_past_gate by (rewrite ?Hparse; easy).
  rewrite Hparse.
  rewrite (getAncestors_on_pages _ pages k path fuel) by assumption.
  unfold stateOfPath. rewrite length_map. reflexivity.
Qed.

Lemma record_adapter_follows_hierarchy_witness :
  gutenbergMap hierarchicalType
    (recordsStore (List.rev (recordsOf 0 scenarioPages))) 2
    (VNumber (Int 21)) (VString "page") (VNumber (Int 3)) =
  Some {| post_ancestors := [Int 1; Int 3];
          post_parent_id := Int 3;
          post_level := Int 3 |}.
Proof.
  apply (record_adapter_follows_hierarchy hierarchicalType
           (recordsStore (List.rev (recordsOf 0 scenarioPages)))
           (VNumber (Int 21)) (VString "page") (VNumber (Int 3))
           scenarioPages 2 [1%positive; 3%positive] 2).
  - cbn. repeat constructor; cbn; intuition discriminate.
  - apply Permutation_sym, Permutation_rev.
  - reflexivity.
  - reflexivity.
  - reflexivity.
  - cbn. lia.
Defined.

(** X12: the two adapters agree on a page forest with pairwise distinct
    ids, page ids and number of pages below 2^53 (where the code parses,
    prints and counts exactly): the state the classic adapter returns for
    the [k]-th page of the dropdown is the state the block-editor callback
    emits when the parent attribute is the parent id of that state. *)
Theorem adapters_agree_on_hierarchy
    (getPostType : jsval -> option PostType)
    (getEntityRecords : jsval -> jsval -> option (list Post))
    (postId postTypeSlug : jsval) (children : list Node)
    (pages : Pages) (k : nat) (st : PositionState) :
  NoDup (pageIds pages) ->
  Forall (fun i => Z.pos i < 2 ^ 53) (pageIds pages) ->
  Z.of_nat (countPages pages) < 2 ^ 53 ->
  filter isOptionElement children =
    OptionElement "" "" :: renderOptions 0 pages ->
  Permutation (orEmpty (getEntityRecords postTypeSlug postId))
    (recordsOf 0 pages) ->
  isHierarchical getPostType postTypeSlug = true ->
  (k < countPages pages)%nat ->
  getParentIdAncestorsAndLevelFromSelect
    {| childNodes := children; selectedIndex := Z.of_nat k + 1 |} =
    Returns st ->
  gutenbergMap getPostType getEntityRecords (S (countPages pages))
    postId postTypeSlug (VNumber (post_parent_id st)) = Some st.
Proof.
  intros Hnodup _ _ Hchildren Hperm Hhier Hk Hclassic.
  destruct (pathTo_defined pages k Hk) as (path & Hpath).
  rewrite <- select_without_text_nodes, Hchildren in Hclassic.
  rewrite (classic_adapter_on_pages pages k path Hpath) in Hclassic.
  injection Hclassic as <-.
  cbn [stateOfPath post_parent_id]. unfold pageNumber at 1.
  rewrite gutenbergMap_past_gate by (rewrite ?parseInt_number; easy).
  rewrite parseInt_number.
  change (Int (Z.pos (last path 1%positive)))
    with (pageNumber (last path 1%positive)).
  rewrite (getAncestors_on_pages _ pages k path) by
    (try assumption; pose proof (pathTo_length _ _ _ Hpath); lia).
  rewrite length_map. reflexivity.
Qed.

Lemma adapters_agree_on_hierarchy_witness :
  gutenbergMap hierarchicalType (recordsStore (recordsOf 0 scenarioPages)) 5
    (VNumber (Int 21)) (VString "page") (VNumber (Int 3)) =
  Some {| post_ancestors := [Int 1; Int 3];
          post_parent_id := Int 3;
          post_level := Int 3 |}.
Proof.
  apply (adapters_agree_on_hierarchy hierarchicalType
           (recordsStore (recordsOf 0 scenarioPages))
           (VNumber (Int 21)) (VString "page")
           (OptionElement "" "" :: renderOptions 0 scenarioPages)
           scenarioPages 2
           {| post_ancestors := [Int 1; Int 3];
              post_parent_id := Int 3;
              post_level := Int 3 |}).
  - cbn. repeat constructor; cbn; intuition discriminate.
  - repeat constructor.
  - reflexivity.
  - reflexivity.
  - apply Permutation_refl.
  - reflexivity.
  - cbn. lia.
  - reflexivity.
Defined.
